(** * doctor_marketcap_analysis.py: the payroll estimator and its command line

    A shallow embedding of [compute_market_cap] and [main].  Python's [int]
    is [Z]; Python's [float] is IEEE 754 binary64, taken from the Standard
    Library's executable specification [SpecFloat] at precision 53 and
    [emax = 1024]; an exception is a value of [pyerr] returned in place of
    the result.  A run of [main] is the list of what it did and how it
    ended, given what [parse_args] returns and which files can be opened
    and written. *)

From Stdlib Require Import ZArith QArith Qabs Bool List String Lia.
From Stdlib Require Import SpecFloat.
Import ListNotations.
Open Scope Z_scope.

(** ** The Python runtime the script relies on *)

Module Py.

Inductive pyerr :=
| OverflowError | ValueError | KeyError | OSError | SystemExit.

Inductive res (A : Type) : Type :=
| Ok (a : A)
| Raise (e : pyerr).
Arguments Ok {A} a.
Arguments Raise {A} e.

Definition bind {A B : Type} (c : res A) (k : A -> res B) : res B :=
  match c with
  | Ok a => k a
  | Raise e => Raise e
  end.

Notation "x <- c ;; k" := (bind c (fun x => k))
  (at level 61, c at next level, right associativity).

Definition prec : Z := 53.
Definition emax : Z := 1024.

(** [float * float] and [float + float]: overflow gives an infinity, an
    invalid operation gives NaN; neither raises. *)
Definition fmul : spec_float -> spec_float -> spec_float := SFmul prec emax.
Definition fadd : spec_float -> spec_float -> spec_float := SFadd prec emax.
Definition fdiv : spec_float -> spec_float -> spec_float := SFdiv prec emax.

(** [float == float]. *)
Definition feq : spec_float -> spec_float -> bool := SFeqb.
(** [float <= float]. *)
Definition fle : spec_float -> spec_float -> bool := SFleb.

(** The values a Python float can hold. *)
Definition is_float (f : spec_float) : bool := valid_binary prec emax f.

Definition is_nan (f : spec_float) : bool :=
  match f with S754_nan => true | _ => false end.

Definition is_finite (f : spec_float) : bool :=
  match f with
  | S754_zero _ | S754_finite _ _ _ => true
  | S754_infinity _ | S754_nan => false
  end.

(** The implicit conversion of an [int] operand of a float operation:
    correctly rounded, ties to even, [OverflowError] ("int too large to
    convert to float") when the rounded value is out of range. *)
Definition float_of_int (n : Z) : res spec_float :=
  match binary_normalize prec emax n 0 false with
  | S754_infinity _ => Raise OverflowError
  | f => Ok f
  end.

(** [int * float]. *)
Definition int_mul_float (n : Z) (f : spec_float) : res spec_float :=
  bind (float_of_int n) (fun x => Ok (fmul x f)).

(** A decimal literal [m * 10^k] read as a float ([float("0.05")], the type
    of the float flags; also the literals of the script), correctly
    rounded. *)
Definition float_lit (m k : Z) : spec_float :=
  match m with
  | Z0 => S754_zero false
  | _ =>
      if 0 <=? k then binary_normalize prec emax (m * 10 ^ k) 0 false
      else
        let '(q, e, l) :=
          SFdiv_core_binary prec emax (Z.abs m) 0 (10 ^ (- k)) 0 in
        binary_round_aux prec emax (m <? 0) q e l
  end.

(** The magnitude [m * 2^e] rounded to an integer, ties to even. *)
Definition round_half_even (m : positive) (e : Z) : Z :=
  if 0 <=? e then Z.pos m * 2 ^ e
  else
    let d := 2 ^ (- e) in
    let q := Z.pos m / d in
    let r := Z.pos m mod d in
    match 2 * r ?= d with
    | Lt => q
    | Gt => q + 1
    | Eq => if Z.even q then q else q + 1
    end.

(** [round(x)] with one argument: the nearest [int], ties to even;
    [ValueError] on NaN and [OverflowError] on an infinity. *)
Definition round (x : spec_float) : res Z :=
  match x with
  | S754_nan => Raise ValueError
  | S754_infinity _ => Raise OverflowError
  | S754_zero _ => Ok 0
  | S754_finite s m e =>
      Ok (if s then - round_half_even m e else round_half_even m e)
  end.

(** [int(x)] on a float truncates toward zero, with the errors of
    [round]; on an [int] it is the identity. *)
Definition int_of_float (x : spec_float) : res Z :=
  match x with
  | S754_nan => Raise ValueError
  | S754_infinity _ => Raise OverflowError
  | S754_zero _ => Ok 0
  | S754_finite s m e =>
      let t := if 0 <=? e then Z.pos m * 2 ^ e else Z.pos m / 2 ^ (- e) in
      Ok (if s then - t else t)
  end.

Definition int_of_int (n : Z) : Z := n.

(** Dictionaries with string keys, in insertion order. *)
Inductive value :=
| VInt (n : Z)
| VFloat (f : spec_float).

Definition dict := list (string * value).

Fixpoint getitem (d : dict) (k : string) : res value :=
  match d with
  | [] => Raise KeyError
  | (k', v) :: d' => if String.eqb k k' then Ok v else getitem d' k
  end.

Definition keys (d : dict) : list string := map fst d.

(** The truth value of a string: only the empty string is false. *)
Definition str_truth (s : string) : bool :=
  match s with
  | EmptyString => false
  | String _ _ => true
  end.

(** Arithmetic on entries read back from a dictionary. *)
Definition value_mul_int (v : value) (n : Z) : res value :=
  match v with
  | VInt a => Ok (VInt (a * n))
  | VFloat f => x <- float_of_int n ;; Ok (VFloat (fmul f x))
  end.

Definition value_div_float (v : value) (f : spec_float) : res value :=
  match v with
  | VInt a => x <- float_of_int a ;; Ok (VFloat (fdiv x f))
  | VFloat g => Ok (VFloat (fdiv g f))
  end.

(** [int(v)]. *)
Definition int_of_value (v : value) : res Z :=
  match v with
  | VInt a => Ok (int_of_int a)
  | VFloat f => int_of_float f
  end.

End Py.

Import Py.

Declare Scope float_scope.
Delimit Scope float_scope with flt.
Infix "*" := fmul : float_scope.
Infix "+" := fadd : float_scope.
Infix "/" := fdiv : float_scope.

(** ** [compute_market_cap] *)

Definition compute_market_cap
    (n_active : Z) (avg_salary high_percentile high_salary : spec_float)
  : res dict :=
  p <- int_mul_float n_active high_percentile ;;
  r <- round p ;;
  let count_high := int_of_int r in
  let count_remaining := n_active - count_high in
  total_high_payroll <- int_mul_float count_high high_salary ;;
  total_remaining_payroll <- int_mul_float count_remaining avg_salary ;;
  let total_market_cap := (total_high_payroll + total_remaining_payroll)%flt in
  Ok [ ("n_active"%string, VInt n_active);
       ("avg_salary"%string, VFloat avg_salary);
       ("high_percentile"%string, VFloat high_percentile);
       ("high_salary"%string, VFloat high_salary);
       ("count_high"%string, VInt count_high);
       ("count_remaining"%string, VInt count_remaining);
       ("total_high_payroll"%string, VFloat total_high_payroll);
       ("total_remaining_payroll"%string, VFloat total_remaining_payroll);
       ("total_market_cap"%string, VFloat total_market_cap) ].

(** The defaults of the signature and of the flags. *)
Definition default_n_active : Z := 9631.
Definition default_avg_salary : spec_float := float_lit 48000 0.
Definition default_high_percentile : spec_float := float_lit 5 (-2).
Definition default_high_salary : spec_float := float_lit 110000 0.

(** Reading an entry of the result at its type. *)
Definition int_field (d : dict) (k : string) : option Z :=
  match getitem d k with
  | Ok (VInt n) => Some n
  | _ => None
  end.

Definition float_field (d : dict) (k : string) : option spec_float :=
  match getitem d k with
  | Ok (VFloat f) => Some f
  | _ => None
  end.

(** ** [main] *)

(** The namespace [parser.parse_args()] returns: one attribute per flag,
    holding the flag's default when the flag is absent. *)
Module Namespace.
Record t := mk {
  avg_salary : spec_float;
  high_salary : spec_float;
  n_active : Z;
  percent_high : spec_float;
  json_out : option string
}.

Definition defaults : t :=
  {| avg_salary := default_avg_salary;
     high_salary := default_high_salary;
     n_active := default_n_active;
     percent_high := default_high_percentile;
     json_out := None |}.
End Namespace.

(** A replacement field of the report's f-string. *)
Inductive piece :=
| Lit (s : string)              (* literal text *)
| Chr (codepoint : Z)           (* a literal character outside ASCII *)
| Fmt (v : value)               (* {v} *)
| FmtInt (n : Z)                (* {n} for an int computed in place *)
| FmtMoney (v : value).         (* {v:,.2f} *)

(** What one run does to the outside world. *)
Inductive effect :=
| OpenWrite (path encoding : string)
    (* open(path, "w", encoding=...) returned: the file exists, empty *)
| WriteJson (path : string) (ensure_ascii : bool) (indent : Z) (obj : dict)
    (* json.dump(obj, f, ...) ran to its end and the [with] block closed
       the file *)
| Print (text : list piece).

(** What a run meets outside the program: the command line as argparse
    reads it, and the file system. *)
Module Env.
Record t := mk {
  parse_args : option Namespace.t;
    (* parser.parse_args(): the namespace, or [None] when argparse rejects
       the command line (or is asked for help) and raises SystemExit *)
  can_open : string -> bool;
    (* whether open(path, "w", encoding="utf-8") succeeds; OSError if not *)
  can_write : string -> bool
    (* whether json.dump and the closing of the file succeed; OSError if
       not *)
}.
End Env.

(** A run: what it did, in order, and how it ended.  Arithmetic and lookups
    raise before anything is done, so a raising computation of type [res]
    becomes a run without effects. *)
Definition run : Type := list effect * res unit.

Definition lift (r : res (list effect)) : run :=
  match r with
  | Ok effs => (effs, Ok tt)
  | Raise e => ([], Raise e)
  end.

Definition euro : piece := Chr 8364.
Definition nbsp : piece := Chr 160.
Definition newline : piece := Chr 10.
Definition million : spec_float := float_lit 1 6.

Definition report (result : dict) : res (list effect) :=
  n <- getitem result "n_active" ;;
  avg <- getitem result "avg_salary" ;;
  hp <- getitem result "high_percentile" ;;
  hp100 <- value_mul_int hp 100 ;;
  top <- int_of_value hp100 ;;
  ch <- getitem result "count_high" ;;
  hs <- getitem result "high_salary" ;;
  th <- getitem result "total_high_payroll" ;;
  thm <- value_div_float th million ;;
  tr <- getitem result "total_remaining_payroll" ;;
  trm <- value_div_float tr million ;;
  tm <- getitem result "total_market_cap" ;;
  tmm <- value_div_float tm million ;;
  Ok [ Print
         [ Lit "Number of active doctors: "; Fmt n; newline;
           Lit "Average salary (remaining 95"; nbsp; Lit "%): "; euro;
           FmtMoney avg; newline;
           Lit "Top "; FmtInt top; nbsp; Lit "% count: "; Fmt ch; Lit ", ";
           Lit "with average salary "; euro; FmtMoney hs; newline;
           Lit "Total payroll for high earners: "; euro; FmtMoney thm;
           Lit "M"; newline;
           Lit "Total payroll for remaining doctors: "; euro; FmtMoney trm;
           Lit "M"; newline;
           Lit "Estimated total market cap (annual salary expenditure): ";
           euro; FmtMoney tmm; Lit "M" ] ].

Definition main (w : Env.t) : run :=
  match Env.parse_args w with
  | None => ([], Raise SystemExit)
  | Some args =>
      match compute_market_cap
              (Namespace.n_active args) (Namespace.avg_salary args)
              (Namespace.percent_high args) (Namespace.high_salary args) with
      | Raise e => ([], Raise e)
      | Ok result =>
          match Namespace.json_out args with
          | Some path =>
              if str_truth path then
                if Env.can_open w path then
                  if Env.can_write w path
                  then ([ OpenWrite path "utf-8";
                          WriteJson path false 2 result ], Ok tt)
                  else ([ OpenWrite path "utf-8" ], Raise OSError)
                else ([], Raise OSError)
              else lift (report result)
          | None => lift (report result)
          end
      end
  end.

(** The module run as a program.  Its last statement is
    [if __name__ == "__main__": main], the name of the function and not a
    call of it: the name is looked up and dropped. *)
Definition run_as_script (w : Env.t) : run := ([], Ok tt).

(** The nine entries of the result, in the order the dictionary is built. *)
Definition result_keys : list string :=
  [ "n_active"; "avg_salary"; "high_percentile"; "high_salary";
    "count_high"; "count_remaining"; "total_high_payroll";
    "total_remaining_payroll"; "total_market_cap" ]%string.

(** ** Reading floats as numbers *)

(** The integer a float is exactly equal to, when it is one. *)
Definition exact_int (f : spec_float) : option Z :=
  match f with
  | S754_zero _ => Some 0
  | S754_finite s m e =>
      let z := if s then Z.neg m else Z.pos m in
      if 0 <=? e then Some (z * 2 ^ e)
      else if z mod 2 ^ (- e) =? 0 then Some (z / 2 ^ (- e)) else None
  | S754_infinity _ | S754_nan => None
  end.

(** The rational a finite float is exactly equal to. *)
Definition F2Q (f : spec_float) : Q :=
  match f with
  | S754_finite s m e =>
      let z := if s then Z.neg m else Z.pos m in
      if 0 <=? e then inject_Z (z * 2 ^ e)
      else Qmake z (Z.to_pos (2 ^ (- e)))
  | _ => 0%Q
  end.

(** [z] is the integer nearest to [q], the even one of the two when [q]
    lies halfway between two integers. *)
Definition nearest_even (q : Q) (z : Z) : Prop :=
  (Qabs (inject_Z z - q) <= 1 # 2)%Q /\
  ((Qabs (inject_Z z - q) == 1 # 2)%Q -> Z.even z = true).

Definition float_field_int (d : dict) (k : string) : option Z :=
  match float_field d k with
  | Some f => exact_int f
  | None => None
  end.

(** ** The arithmetic of binary rounding

    [m / d] rounded to an integer, ties to even. *)
Definition rne (m d : Z) : Z :=
  let q := m / d in
  let r := m mod d in
  match 2 * r ?= d with
  | Lt => q
  | Gt => q + 1
  | Eq => if Z.even q then q else q + 1
  end.

(** Dropping [k] low bits of a mantissa, rounding to nearest even. *)
Definition shift_round (m e k : Z) : Z * Z :=
  match k with
  | Zpos _ => (rne m (2 ^ k), e + k)
  | _ => (m, e)
  end.

(** Dropping [k] low bits of a mantissa, truncating. *)
Definition shift_trunc (m e k : Z) : Z * Z :=
  match k with
  | Zpos _ => (m / 2 ^ k, e + k)
  | _ => (m, e)
  end.

(** [binary_round_aux] on an exact mantissa, with its bit shifts written as
    divisions. *)
Definition round_spec (s : bool) (m e : Z) : spec_float :=
  let '(m1, e1) := shift_round m e (fexp prec emax (Zdigits2 m + e) - e) in
  let '(m2, e2) := shift_trunc m1 e1 (fexp prec emax (Zdigits2 m1 + e1) - e1) in
  match m2 with
  | Z0 => S754_zero s
  | Zpos p => if e2 <=? emax - prec then S754_finite s p e2 else S754_infinity s
  | Zneg _ => S754_nan
  end.

(** [m * 2^e <= N], on integers. *)
Definition le_int (m e N : Z) : Prop :=
  m * 2 ^ Z.max e 0 <= N * 2 ^ Z.max (- e) 0.

(** The float 1.0. *)
Definition one_bits : spec_float := S754_finite false 4503599627370496 (-52).

(** The first magnitude an [int] cannot have if it is to convert to a float:
    halfway between the largest float and [2^1024]. *)
Definition float_int_limit : Z := 2 ^ 1024 - 2 ^ 970.

(** The defaults with [--json-out path]. *)
Definition args_json_out (path : string) : Namespace.t :=
  {| Namespace.avg_salary := default_avg_salary;
     Namespace.high_salary := default_high_salary;
     Namespace.n_active := default_n_active;
     Namespace.percent_high := default_high_percentile;
     Namespace.json_out := Some path |}.

(** A command line that parses to [args], on a file system where every
    path can be opened and written. *)
Definition env_of (args : Namespace.t) : Env.t :=
  {| Env.parse_args := Some args;
     Env.can_open := fun _ => true;
     Env.can_write := fun _ => true |}.


(** The dictionary [compute_market_cap] builds, entry by entry. *)
Definition result_dict (n : Z) (a h s : spec_float) (ch cr : Z)
    (th tr tm : spec_float) : dict :=
  [ ("n_active"%string, VInt n);
    ("avg_salary"%string, VFloat a);
    ("high_percentile"%string, VFloat h);
    ("high_salary"%string, VFloat s);
    ("count_high"%string, VInt ch);
    ("count_remaining"%string, VInt cr);
    ("total_high_payroll"%string, VFloat th);
    ("total_remaining_payroll"%string, VFloat tr);
    ("total_market_cap"%string, VFloat tm) ].

(** The text of the report for a given result and percent label. *)
Definition report_text (n : Z) (a s : spec_float) (top ch : Z)
    (th tr tm : spec_float) : list piece :=
  [ Lit "Number of active doctors: "; Fmt (VInt n); newline;
    Lit "Average salary (remaining 95"; nbsp; Lit "%): "; euro;
    FmtMoney (VFloat a); newline;
    Lit "Top "; FmtInt top; nbsp; Lit "% count: "; Fmt (VInt ch); Lit ", ";
    Lit "with average salary "; euro; FmtMoney (VFloat s); newline;
    Lit "Total payroll for high earners: "; euro;
    FmtMoney (VFloat (th / million)%flt); Lit "M"; newline;
    Lit "Total payroll for remaining doctors: "; euro;
    FmtMoney (VFloat (tr / million)%flt); Lit "M"; newline;
    Lit "Estimated total market cap (annual salary expenditure): ";
    euro; FmtMoney (VFloat (tm / million)%flt); Lit "M" ].

(** [m * 2^e = V], on integers. *)
Definition eq_int (m e V : Z) : Prop :=
  m * 2 ^ Z.max e 0 = V * 2 ^ Z.max (- e) 0.

(** A float that is a zero, positive or plus infinity. *)
Definition nonneg_float (f : spec_float) : Prop :=
  (exists b, f = S754_zero b) \/ f = S754_infinity false \/
  exists m e, f = S754_finite false m e.

(** [--json-out] absent, or given the empty string. *)
Definition no_path (o : option string) : Prop :=
  o = None \/ o = Some EmptyString.

(** ** What a successful call computed *)

Lemma compute_market_cap_inv n a h s d :
  compute_market_cap n a h s = Ok d ->
  exists x ch y z,
    float_of_int n = Ok x /\
    round (x * h)%flt = Ok ch /\
    float_of_int ch = Ok y /\
    float_of_int (n - ch) = Ok z /\
    d = [ ("n_active"%string, VInt n);
          ("avg_salary"%string, VFloat a);
          ("high_percentile"%string, VFloat h);
          ("high_salary"%string, VFloat s);
          ("count_high"%string, VInt ch);
          ("count_remaining"%string, VInt (n - ch));
          ("total_high_payroll"%string, VFloat (y * s)%flt);
          ("total_remaining_payroll"%string, VFloat (z * a)%flt);
          ("total_market_cap"%string, VFloat (y * s + z * a)%flt) ].
Proof.
  unfold compute_market_cap, int_mul_float, int_of_int.
  destruct (float_of_int n) as [x|] eqn:Hx; cbn [bind]; [|discriminate].
  destruct (round (x * h)%flt) as [ch|] eqn:Hr; cbn [bind]; [|discriminate].
  destruct (float_of_int ch) as [y|] eqn:Hy; cbn [bind]; [|discriminate].
  destruct (float_of_int (n - ch)) as [z|] eqn:Hz; cbn [bind]; [|discriminate].
  intros [= <-]. exists x, ch, y, z. repeat split; assumption.
Qed.

Lemma compute_market_cap_intro n a h s x ch y z :
  float_of_int n = Ok x ->
  round (x * h)%flt = Ok ch ->
  float_of_int ch = Ok y ->
  float_of_int (n - ch) = Ok z ->
  compute_market_cap n a h s =
  Ok [ ("n_active"%string, VInt n);
       ("avg_salary"%string, VFloat a);
       ("high_percentile"%string, VFloat h);
       ("high_salary"%string, VFloat s);
       ("count_high"%string, VInt ch);
       ("count_remaining"%string, VInt (n - ch));
       ("total_high_payroll"%string, VFloat (y * s)%flt);
       ("total_remaining_payroll"%string, VFloat (z * a)%flt);
       ("total_market_cap"%string, VFloat (y * s + z * a)%flt) ].
Proof.
  intros Hx Hr Hy Hz.
  unfold compute_market_cap, int_mul_float, int_of_int.
  rewrite Hx; cbn [bind]. rewrite Hr; cbn [bind].
  rewrite Hy; cbn [bind]. rewrite Hz; cbn [bind]. reflexivity.
Qed.

(** ** The counts *)

(** C1: whenever [compute_market_cap] returns, the two counts of its result
    add up to [n_active]. *)
Theorem counts_sum_to_n_active n a h s d :
  compute_market_cap n a h s = Ok d ->
  exists ch cr,
    int_field d "count_high" = Some ch /\
    int_field d "count_remaining" = Some cr /\
    ch + cr = n.
Proof.
  intros H. apply compute_market_cap_inv in H.
  destruct H as (x & ch & y & z & _ & _ & _ & _ & ->).
  exists ch, (n - ch). repeat split; try reflexivity. lia.
Qed.

Lemma counts_sum_to_n_active_witness :
  exists d ch cr,
    compute_market_cap 9631 default_avg_salary default_high_percentile
      default_high_salary = Ok d /\
    int_field d "count_high" = Some ch /\
    int_field d "count_remaining" = Some cr /\
    ch + cr = 9631.
Proof.
  destruct (counts_sum_to_n_active 9631 default_avg_salary
              default_high_percentile default_high_salary _ eq_refl)
    as (ch & cr & H1 & H2 & H3).
  eexists; exists ch, cr. split; [reflexivity|]. auto.
Defined.

(** C10: the result carries the four arguments unchanged under their own
    keys. *)
Theorem inputs_echoed n a h s d :
  compute_market_cap n a h s = Ok d ->
  getitem d "n_active" = Ok (VInt n) /\
  getitem d "avg_salary" = Ok (VFloat a) /\
  getitem d "high_percentile" = Ok (VFloat h) /\
  getitem d "high_salary" = Ok (VFloat s).
Proof.
  intros H. apply compute_market_cap_inv in H.
  destruct H as (x & ch & y & z & _ & _ & _ & _ & ->).
  repeat split; reflexivity.
Qed.

Lemma inputs_echoed_witness :
  exists d,
    compute_market_cap 9631 default_avg_salary default_high_percentile
      default_high_salary = Ok d /\
    getitem d "n_active" = Ok (VInt 9631) /\
    getitem d "avg_salary" = Ok (VFloat default_avg_salary) /\
    getitem d "high_percentile" = Ok (VFloat default_high_percentile) /\
    getitem d "high_salary" = Ok (VFloat default_high_salary).
Proof.
  eexists. split; [reflexivity|].
  exact (inputs_echoed 9631 default_avg_salary default_high_percentile
           default_high_salary _ eq_refl).
Defined.

(** ** Worked inputs *)

(** The literal [0.05] is the double [0x1.999999999999ap-5]. *)
Example default_high_percentile_bits :
  default_high_percentile = S754_finite false 7205759403792794 (-57) /\
  is_float default_high_percentile = true.
Proof. split; reflexivity. Qed.

(** C2: on the defaults, [compute(9631, 48000.0, 0.05, 110000.0)], the
    counts are 482 and 9149 and the payrolls are exactly 53,020,000,
    439,152,000 and 492,172,000. *)
Theorem compute_defaults :
  exists d,
    compute_market_cap 9631 (float_lit 48000 0) (float_lit 5 (-2))
      (float_lit 110000 0) = Ok d /\
    int_field d "count_high" = Some 482 /\
    int_field d "count_remaining" = Some 9149 /\
    float_field_int d "total_high_payroll" = Some 53020000 /\
    float_field_int d "total_remaining_payroll" = Some 439152000 /\
    float_field_int d "total_market_cap" = Some 492172000.
Proof. eexists. split; [vm_compute; reflexivity|]. repeat split. Qed.

(** C8: with nobody active, [compute(0, 48000.0, 0.05, 110000.0)], both
    counts are 0 and the three payrolls are the float zero. *)
Theorem compute_empty_population :
  exists d,
    compute_market_cap 0 (float_lit 48000 0) (float_lit 5 (-2))
      (float_lit 110000 0) = Ok d /\
    int_field d "count_high" = Some 0 /\
    int_field d "count_remaining" = Some 0 /\
    float_field d "total_high_payroll" = Some (S754_zero false) /\
    float_field d "total_remaining_payroll" = Some (S754_zero false) /\
    float_field d "total_market_cap" = Some (S754_zero false).
Proof. eexists. split; [vm_compute; reflexivity|]. repeat split. Qed.

(** C9: at percentile 0.0 nobody is a high earner and the total is
    100 * 50000; at percentile 1.0 nobody remains and the total is
    100 * 110000. *)
Theorem compute_boundary_percentiles :
  (exists d,
     compute_market_cap 100 (float_lit 50000 0) (float_lit 0 0)
       (float_lit 110000 0) = Ok d /\
     int_field d "count_high" = Some 0 /\
     float_field_int d "total_market_cap" = Some 5000000) /\
  (exists d,
     compute_market_cap 100 (float_lit 50000 0) (float_lit 1 0)
       (float_lit 110000 0) = Ok d /\
     int_field d "count_remaining" = Some 0 /\
     float_field_int d "total_market_cap" = Some 11000000).
Proof.
  split; eexists; (split; [vm_compute; reflexivity|]); split; reflexivity.
Qed.

(** ** The total *)

Lemma SFcompare_refl f : is_nan f = false -> SFcompare f f = Some Eq.
Proof.
  destruct f as [[]|[]| |[] m e]; cbn; try discriminate; intros _;
    try reflexivity;
    rewrite Z.compare_refl, Pos.compare_cont_refl; reflexivity.
Qed.

Lemma feq_refl f : is_nan f = false -> feq f f = true.
Proof. intros H. unfold feq, SFeqb. now rewrite SFcompare_refl. Qed.

(** C5, as the code has it: the total is the very float the addition of the
    two payrolls produced, and [==] holds between them whenever that float
    is not NaN. *)
Theorem total_is_sum_of_payrolls n a h s d :
  compute_market_cap n a h s = Ok d ->
  exists th tr tm,
    float_field d "total_high_payroll" = Some th /\
    float_field d "total_remaining_payroll" = Some tr /\
    float_field d "total_market_cap" = Some tm /\
    tm = (th + tr)%flt /\
    (is_nan tm = false -> feq tm (th + tr)%flt = true).
Proof.
  intros H. apply compute_market_cap_inv in H.
  destruct H as (x & ch & y & z & _ & _ & _ & _ & ->).
  exists (y * s)%flt, (z * a)%flt, (y * s + z * a)%flt.
  repeat split; try reflexivity. apply feq_refl.
Qed.

Lemma total_is_sum_of_payrolls_witness :
  exists d th tr tm,
    compute_market_cap 9631 default_avg_salary default_high_percentile
      default_high_salary = Ok d /\
    float_field d "total_high_payroll" = Some th /\
    float_field d "total_remaining_payroll" = Some tr /\
    float_field d "total_market_cap" = Some tm /\
    tm = (th + tr)%flt /\
    (is_nan tm = false -> feq tm (th + tr)%flt = true).
Proof.
  destruct (total_is_sum_of_payrolls 9631 default_avg_salary
              default_high_percentile default_high_salary _ eq_refl)
    as (th & tr & tm & H).
  eexists; exists th, tr, tm. split; [reflexivity | exact H].
Defined.

(** C5 as stated fails: with salaries of opposite sign whose payrolls both
    overflow, [compute(10, -1e308, 0.5, 1e308)], the total is NaN, and NaN
    is not [==] to anything. *)
Lemma total_not_eq_sum_when_nan :
  exists d th tr tm,
    compute_market_cap 10 (float_lit (-1) 308) (float_lit 5 (-1))
      (float_lit 1 308) = Ok d /\
    float_field d "total_high_payroll" = Some th /\
    float_field d "total_remaining_payroll" = Some tr /\
    float_field d "total_market_cap" = Some tm /\
    feq tm (th + tr)%flt = false.
Proof.
  eexists; eexists; eexists; eexists.
  split; [vm_compute; reflexivity|]. repeat split.
Qed.

(** ** The command line *)

Lemma str_truth_nonempty p : p <> EmptyString -> str_truth p = true.
Proof. destruct p; [congruence | reflexivity]. Qed.

Lemma result_keys_distinct : NoDup result_keys /\ List.length result_keys = 9%nat.
Proof.
  split; [|reflexivity].
  unfold result_keys.
  repeat (constructor; [cbn; intuition discriminate|]). constructor.
Qed.

(** C3, as the code has it: when [main] is called, the command line parses
    with a non-empty [--json-out] path, the estimate is computed and the
    file can be opened and written, the run consists of opening that path
    and dumping the result to it, the object of the nine entries, and
    nothing is printed. *)
Theorem json_out_writes_result w args path d :
  Env.parse_args w = Some args ->
  Namespace.json_out args = Some path ->
  path <> EmptyString ->
  compute_market_cap
    (Namespace.n_active args) (Namespace.avg_salary args)
    (Namespace.percent_high args) (Namespace.high_salary args) = Ok d ->
  Env.can_open w path = true ->
  Env.can_write w path = true ->
  main w = ([ OpenWrite path "utf-8"; WriteJson path false 2 d ], Ok tt) /\
  keys d = result_keys /\
  NoDup (keys d) /\
  List.length (keys d) = 9%nat.
Proof.
  intros Hw Hj Hp Hc Ho Hd. unfold main. rewrite Hw, Hc, Hj.
  rewrite (str_truth_nonempty _ Hp), Ho, Hd.
  apply compute_market_cap_inv in Hc.
  destruct Hc as (x & ch & y & z & _ & _ & _ & _ & ->).
  split; [reflexivity|]. split; [reflexivity|].
  change (NoDup result_keys /\ List.length result_keys = 9%nat).
  exact result_keys_distinct.
Qed.

Lemma json_out_writes_result_witness :
  exists d,
    main (env_of (args_json_out "out.json")) =
      ([ OpenWrite "out.json" "utf-8"; WriteJson "out.json" false 2 d ],
       Ok tt) /\
    keys d = result_keys /\
    NoDup (keys d) /\
    List.length (keys d) = 9%nat.
Proof.
  eexists.
  apply (json_out_writes_result (env_of (args_json_out "out.json"))
           (args_json_out "out.json") "out.json").
  - reflexivity.
  - reflexivity.
  - discriminate.
  - vm_compute; reflexivity.
  - reflexivity.
  - reflexivity.
Defined.

(** C3 as stated fails on four runs that pass [--json-out]: run as a
    program the module never calls [main], so nothing is written; with
    [--percent-high nan] the estimate raises and nothing is written; with a
    path that cannot be opened the run raises [OSError]; with the empty
    string as path the text report is printed instead. *)
Lemma json_out_without_write :
  run_as_script (env_of (args_json_out "out.json")) = ([], Ok tt) /\
  main (env_of {| Namespace.avg_salary := default_avg_salary;
                  Namespace.high_salary := default_high_salary;
                  Namespace.n_active := default_n_active;
                  Namespace.percent_high := S754_nan;
                  Namespace.json_out := Some "out.json"%string |})
    = ([], Raise ValueError) /\
  main {| Env.parse_args := Some (args_json_out "no_such_dir/out.json");
          Env.can_open := fun _ => false;
          Env.can_write := fun _ => true |}
    = ([], Raise OSError) /\
  exists text,
    main (env_of (args_json_out EmptyString)) = ([ Print text ], Ok tt).
Proof.
  split; [reflexivity|].
  split; [vm_compute; reflexivity|].
  split; [vm_compute; reflexivity|].
  eexists. vm_compute. reflexivity.
Qed.

(** ** Rounding to the count *)

Lemma Qabs_half_cases (x : Q) :
  (Qabs x == 1 # 2)%Q -> (x == 1 # 2)%Q \/ (x == - (1 # 2))%Q.
Proof.
  intros H. destruct (Qlt_le_dec x 0) as [Hn|Hn].
  - right. rewrite (Qabs_neg x) in H by (apply Qlt_le_weak; exact Hn).
    rewrite <- H. symmetry. apply Qopp_involutive.
  - left. rewrite (Qabs_pos x) in H by exact Hn. exact H.
Qed.

Lemma round_half_even_grid m e :
  e < 0 ->
  let D := 2 ^ (- e) in
  let R := round_half_even m e in
  - D <= 2 * (R * D - Z.pos m) <= D /\
  (Z.abs (2 * (R * D - Z.pos m)) = D -> Z.even R = true) /\
  0 <= R.
Proof.
  intros He D R.
  assert (HD : 0 < D) by (apply Z.pow_pos_nonneg; lia).
  subst R. unfold round_half_even.
  destruct (Z.leb_spec 0 e) as [|_]; [lia|]. cbv zeta. fold D.
  pose proof (Z.div_mod (Z.pos m) D ltac:(lia)) as Hdm.
  pose proof (Z.mod_pos_bound (Z.pos m) D HD) as Hr.
  assert (Hq : 0 <= Z.pos m / D) by (apply Z.div_pos; lia).
  set (q := Z.pos m / D) in *. set (r := Z.pos m mod D) in *.
  clearbody q r D.
  destruct (Z.compare_spec (2 * r) D) as [Heq|Hlt|Hgt].
  - destruct (Z.even q) eqn:Hev.
    + repeat split; try lia. intros _; exact Hev.
    + repeat split; try lia. intros _.
      now rewrite Z.even_add, Hev.
  - repeat split; lia.
  - repeat split; lia.
Qed.

Lemma round_half_even_is_nearest s m e :
  nearest_even (F2Q (S754_finite s m e))
    (if s then - round_half_even m e else round_half_even m e).
Proof.
  unfold nearest_even, F2Q.
  destruct (Z.leb_spec 0 e) as [He|He].
  - assert (Hr : round_half_even m e = Z.pos m * 2 ^ e).
    { unfold round_half_even. destruct (Z.leb_spec 0 e); [reflexivity|lia]. }
    rewrite Hr.
    assert (Hz : (inject_Z (if s then - (Z.pos m * 2 ^ e) else Z.pos m * 2 ^ e)
                  - inject_Z ((if s then Z.neg m else Z.pos m) * 2 ^ e) == 0)%Q).
    { destruct s; unfold Qeq, Qminus, Qplus, Qopp, inject_Z; cbn [Qnum Qden]; lia. }
    rewrite Hz. split; [discriminate|]. intros H. discriminate H.
  - pose proof (round_half_even_grid m e He) as (Hb & Hev & Hn).
    set (R := round_half_even m e) in *.
    assert (HD : 0 < 2 ^ (- e)) by (apply Z.pow_pos_nonneg; lia).
    set (D := 2 ^ (- e)) in *.
    assert (HDp : Z.pos (Z.to_pos D) = D) by (apply Z2Pos.id; exact HD).
    clearbody R D.
    split.
    + apply Qabs_Qle_condition.
      destruct s; unfold Qle, Qminus, Qplus, Qopp, inject_Z; cbn [Qnum Qden];
        rewrite ?HDp; split; nia.
    + intros H. apply Qabs_half_cases in H.
      assert (Habs : Z.abs (2 * (R * D - Z.pos m)) = D).
      { destruct s; destruct H as [H|H];
          unfold Qeq, Qminus, Qplus, Qopp, inject_Z in H; cbn [Qnum Qden] in H;
          rewrite ?HDp in H; nia. }
      destruct s; [rewrite Z.even_opp|]; auto.
Qed.

Lemma round_is_nearest_even x z : round x = Ok z -> nearest_even (F2Q x) z.
Proof.
  destruct x as [b|b| |b m e]; cbn [round]; try discriminate; intros [= <-].
  - split; [discriminate | reflexivity].
  - apply round_half_even_is_nearest.
Qed.

Lemma round_finite x z : round x = Ok z -> is_finite x = true.
Proof. destruct x; cbn; intros; (reflexivity || discriminate). Qed.

(** C6, as the code has it: [count_high] is the integer nearest to the float
    the multiplication [n_active * high_percentile] yields, [n_active]
    converted to a float first and the product rounded to a float, and the
    even one of the two when that float lies halfway between two integers:
    ties go to even, always. *)
Theorem count_high_rounds_half_even n a h s d :
  compute_market_cap n a h s = Ok d ->
  exists x ch,
    float_of_int n = Ok x /\
    is_finite (x * h)%flt = true /\
    int_field d "count_high" = Some ch /\
    nearest_even (F2Q (x * h)%flt) ch.
Proof.
  intros H. apply compute_market_cap_inv in H.
  destruct H as (x & ch & y & z & Hx & Hr & _ & _ & ->).
  exists x, ch. split; [exact Hx|]. split; [exact (round_finite _ _ Hr)|].
  split; [reflexivity|]. exact (round_is_nearest_even _ _ Hr).
Qed.

Lemma count_high_rounds_half_even_witness :
  exists d x ch,
    compute_market_cap 50 default_avg_salary default_high_percentile
      default_high_salary = Ok d /\
    float_of_int 50 = Ok x /\
    is_finite (x * default_high_percentile)%flt = true /\
    int_field d "count_high" = Some ch /\
    nearest_even (F2Q (x * default_high_percentile)%flt) ch.
Proof.
  destruct (count_high_rounds_half_even 50 default_avg_salary
              default_high_percentile default_high_salary _ eq_refl)
    as (x & ch & H).
  eexists; exists x, ch. split; [reflexivity | exact H].
Defined.

(** C6 as stated fails: [n_active = 2^53 + 1] converts to the float [2^53],
    so at percentile 1.0 [count_high] is [2^53], one away from the product
    [n_active * high_percentile], the integer [2^53 + 1]. *)
Lemma count_high_not_exact_product :
  exists d ch,
    compute_market_cap 9007199254740993 (float_lit 48000 0) (float_lit 1 0)
      (float_lit 110000 0) = Ok d /\
    int_field d "count_high" = Some ch /\
    ch = 2 ^ 53 /\
    (F2Q (float_lit 1 0) == 1)%Q /\
    ~ nearest_even (inject_Z 9007199254740993 * F2Q (float_lit 1 0))%Q ch.
Proof.
  eexists; eexists.
  split; [vm_compute; reflexivity|].
  split; [reflexivity|].
  split; [vm_compute; reflexivity|].
  split; [vm_compute; reflexivity|].
  intros [H _]. vm_compute in H. apply H. reflexivity.
Qed.

(** The ties: [10 * 0.05], [30 * 0.05] and [50 * 0.05] are the floats 0.5,
    1.5 and 2.5, and the counts are 0, 2 and 2. *)
Example half_even_ties :
  (exists x, float_of_int 10 = Ok x /\
             (F2Q (x * default_high_percentile)%flt == 1 # 2)%Q) /\
  (p <- int_mul_float 10 default_high_percentile ;; round p) = Ok 0 /\
  (p <- int_mul_float 30 default_high_percentile ;; round p) = Ok 2 /\
  (p <- int_mul_float 50 default_high_percentile ;; round p) = Ok 2.
Proof.
  split; [eexists; split; [reflexivity | vm_compute; reflexivity]|].
  repeat split.
Qed.

(** ** Binary rounding, step by step *)
Lemma digits2_pos_size p : digits2_pos p = Pos.size p.
Proof. induction p; cbn; congruence. Qed.

Lemma digits2_bounds p :
  2 ^ (Z.pos (digits2_pos p) - 1) <= Z.pos p < 2 ^ Z.pos (digits2_pos p).
Proof.
  rewrite digits2_pos_size. split.
  - pose proof (Pos.size_le p) as H.
    assert (H2 : 2 ^ Z.pos (Pos.size p) <= 2 * Z.pos p).
    { change (2 * Z.pos p) with (Z.pos p~0). rewrite <- Pos2Z.inj_pow.
      apply Pos2Z.pos_le_pos. exact H. }
    replace (Z.pos (Pos.size p)) with (Z.succ (Z.pos (Pos.size p) - 1)) in H2 by lia.
    rewrite Z.pow_succ_r in H2 by lia. lia.
  - pose proof (Pos.size_gt p) as H.
    change 2 with (Z.pos 2). rewrite <- Pos2Z.inj_pow. apply Pos2Z.pos_lt_pos. exact H.
Qed.

Lemma iter_pos_iter {A} (f : A -> A) p x : iter_pos f p x = Pos.iter f x p.
Proof.
  revert x. induction p as [p IH|p IH|]; intros x; cbn.
  - rewrite !IH. rewrite <- !Pos.iter_swap. reflexivity.
  - rewrite !IH. reflexivity.
  - reflexivity.
Qed.

Lemma shr_1_nonneg q r s :
  0 <= q ->
  shr_1 (Build_shr_record q r s) = Build_shr_record (q / 2) (Z.odd q) (r || s).
Proof.
  intros Hq. rewrite <- Z.div2_div.
  destruct q as [|[p|p|]|p]; try reflexivity. lia.
Qed.

Lemma pow2_pred j : 0 < j -> 2 ^ j = 2 * 2 ^ (j - 1).
Proof.
  intros Hj. rewrite <- Z.pow_succ_r by lia. f_equal. lia.
Qed.

Lemma mod_pow2_split m j :
  0 < j ->
  m mod 2 ^ j = m mod 2 ^ (j - 1) + 2 ^ (j - 1) * ((m / 2 ^ (j - 1)) mod 2).
Proof.
  intros Hj.
  rewrite (pow2_pred j Hj), (Z.mul_comm 2).
  apply Z.rem_mul_r; [apply Z.pow_nonzero; lia | lia].
Qed.

Lemma odd_mod2 q : q mod 2 = if Z.odd q then 1 else 0.
Proof. rewrite Zmod_odd. reflexivity. Qed.

Lemma shr_iter m j :
  0 <= m ->
  iter_pos shr_1 j (Build_shr_record m false false) =
  Build_shr_record (m / 2 ^ Z.pos j)
    (Z.odd (m / 2 ^ (Z.pos j - 1)))
    (negb (m mod 2 ^ (Z.pos j - 1) =? 0)).
Proof.
  intros Hm. rewrite iter_pos_iter.
  induction j as [|j IH] using Pos.peano_ind.
  - cbn [Pos.iter]. rewrite shr_1_nonneg by exact Hm.
    change (Z.pos 1 - 1) with 0. rewrite Z.pow_0_r, Z.div_1_r, Z.mod_1_r.
    reflexivity.
  - rewrite Pos.iter_succ, IH.
    rewrite shr_1_nonneg by (apply Z.div_pos; [exact Hm | apply Z.pow_pos_nonneg; lia]).
    rewrite Pos2Z.inj_succ.
    replace (Z.succ (Z.pos j) - 1) with (Z.pos j) by lia.
    f_equal.
    + rewrite Z.div_div by (try apply Z.pow_pos_nonneg; try apply Z.pow_nonzero; lia).
      rewrite Z.pow_succ_r by lia. f_equal. lia.
    + rewrite (mod_pow2_split m (Z.pos j)) by lia.
      rewrite odd_mod2.
      pose proof (Z.mod_pos_bound m (2 ^ (Z.pos j - 1)) ltac:(apply Z.pow_pos_nonneg; lia)) as Hb.
      assert (Hp : 0 < 2 ^ (Z.pos j - 1)) by (apply Z.pow_pos_nonneg; lia).
      destruct (Z.odd (m / 2 ^ (Z.pos j - 1))); cbn [orb].
      * symmetry. apply negb_true_iff, Z.eqb_neq. lia.
      * rewrite Z.mul_0_r, Z.add_0_r. reflexivity.
Qed.

Lemma shr_rne m j :
  0 <= m ->
  let r := iter_pos shr_1 j (Build_shr_record m false false) in
  round_nearest_even (shr_m r) (loc_of_shr_record r) = rne m (2 ^ Z.pos j).
Proof.
  intros Hm r. subst r. rewrite shr_iter by exact Hm.
  unfold rne. cbn [shr_m].
  rewrite (mod_pow2_split m (Z.pos j)) by lia.
  rewrite odd_mod2.
  assert (Hp : 0 < 2 ^ (Z.pos j - 1)) by (apply Z.pow_pos_nonneg; lia).
  assert (H2 : 2 ^ Z.pos j = 2 * 2 ^ (Z.pos j - 1)) by (apply pow2_pred; lia).
  pose proof (Z.mod_pos_bound m (2 ^ (Z.pos j - 1)) Hp) as Hb.
  set (a := m mod 2 ^ (Z.pos j - 1)) in *.
  set (hf := 2 ^ (Z.pos j - 1)) in *.
  rewrite H2.
  set (q := m / (2 * hf)).
  clearbody a hf q.
  destruct (Z.odd (m / hf)); destruct (Z.eqb_spec a 0) as [Ha|Ha]; cbn [negb loc_of_shr_record round_nearest_even].
  - replace (2 * (a + hf * 1) ?= 2 * hf) with Eq; [reflexivity|].
    symmetry. apply Z.compare_eq_iff. lia.
  - replace (2 * (a + hf * 1) ?= 2 * hf) with Gt; [reflexivity|].
    symmetry. apply Z.compare_gt_iff. lia.
  - replace (2 * (a + hf * 0) ?= 2 * hf) with Lt; [reflexivity|].
    symmetry. apply Z.compare_lt_iff. lia.
  - replace (2 * (a + hf * 0) ?= 2 * hf) with Lt; [reflexivity|].
    symmetry. apply Z.compare_lt_iff. lia.
Qed.

Lemma rne_bounds m d :
  0 <= m -> 0 < d -> m / d <= rne m d <= m / d + 1.
Proof.
  intros Hm Hd. unfold rne.
  destruct (2 * (m mod d) ?= d); try destruct (Z.even (m / d)); lia.
Qed.

Lemma rne_nonneg m d : 0 <= m -> 0 < d -> 0 <= rne m d.
Proof.
  intros Hm Hd. pose proof (rne_bounds m d Hm Hd).
  pose proof (Z.div_pos m d Hm Hd). lia.
Qed.

Lemma rne_grid m d G : 0 <= m -> 0 < d -> m <= G * d -> rne m d <= G.
Proof.
  intros Hm Hd HG. unfold rne.
  pose proof (Z.div_mod m d ltac:(lia)) as Hdm.
  pose proof (Z.mod_pos_bound m d Hd) as Hr.
  set (q := m / d) in *. set (r := m mod d) in *. clearbody q r.
  assert (Hq : q <= G) by nia.
  destruct (Z.compare_spec (2 * r) d); try destruct (Z.even q); try lia; nia.
Qed.

Lemma shr_fexp_exact m e :
  0 <= m ->
  let '(r, e') := shr_fexp prec emax m e loc_Exact in
  (SpecFloat.round_nearest_even (shr_m r) (loc_of_shr_record r), e')
  = shift_round m e (fexp prec emax (Zdigits2 m + e) - e).
Proof.
  intros Hm. unfold shr_fexp, shr, shift_round. cbn [shr_record_of_loc].
  destruct (fexp prec emax (Zdigits2 m + e) - e) as [|k|k]; try reflexivity.
  rewrite (shr_rne m k Hm). reflexivity.
Qed.

Lemma shr_fexp_trunc m e :
  0 <= m ->
  let '(r, e') := shr_fexp prec emax m e loc_Exact in
  (shr_m r, e') = shift_trunc m e (fexp prec emax (Zdigits2 m + e) - e).
Proof.
  intros Hm. unfold shr_fexp, shr, shift_trunc. cbn [shr_record_of_loc].
  destruct (fexp prec emax (Zdigits2 m + e) - e) as [|k|k]; try reflexivity.
  rewrite (shr_iter m k Hm). reflexivity.
Qed.

Lemma shift_round_nonneg m e k : 0 <= m -> 0 <= fst (shift_round m e k).
Proof.
  intros Hm. destruct k; cbn [shift_round fst]; try exact Hm.
  apply rne_nonneg; [exact Hm | apply Z.pow_pos_nonneg; lia].
Qed.

Lemma binary_round_aux_spec s m e :
  0 <= m ->
  binary_round_aux prec emax s m e loc_Exact = round_spec s m e.
Proof.
  intros Hm. unfold binary_round_aux, round_spec.
  pose proof (shr_fexp_exact m e Hm) as H1.
  destruct (shr_fexp prec emax m e loc_Exact) as [r1 e1].
  rewrite <- H1.
  pose proof (shift_round_nonneg m e (fexp prec emax (Zdigits2 m + e) - e) Hm) as Hn.
  rewrite <- H1 in Hn. cbn [fst] in Hn.
  pose proof (shr_fexp_trunc _ e1 Hn) as H2.
  destruct (shr_fexp prec emax _ e1 loc_Exact) as [r2 e2].
  rewrite <- H2. reflexivity.
Qed.

Lemma fexp_eq x : fexp prec emax x = Z.max (x - 53) (-1074).
Proof. reflexivity. Qed.

Lemma pow2_pos a : 0 <= a -> 0 < 2 ^ a.
Proof. intros. apply Z.pow_pos_nonneg; lia. Qed.

Lemma le_int_nonneg_exp m e N : 0 <= e -> le_int m e N <-> m * 2 ^ e <= N.
Proof.
  intros He. unfold le_int.
  rewrite (Z.max_l e 0), (Z.max_r (- e) 0) by lia.
  rewrite Z.pow_0_r. lia.
Qed.

Lemma le_int_nonpos_exp m e N : e <= 0 -> le_int m e N <-> m <= N * 2 ^ (- e).
Proof.
  intros He. unfold le_int.
  rewrite (Z.max_r e 0), (Z.max_l (- e) 0) by lia.
  rewrite Z.pow_0_r. lia.
Qed.

Lemma shift_trunc_le m e k N :
  0 <= m -> le_int m e N ->
  0 <= fst (shift_trunc m e k) /\
  le_int (fst (shift_trunc m e k)) (snd (shift_trunc m e k)) N.
Proof.
  intros Hm Hle.
  destruct k as [|k|k]; cbn [shift_trunc fst snd]; try (split; assumption).
  assert (Hk : 0 < 2 ^ Z.pos k) by (apply pow2_pos; lia).
  pose proof (Z.mul_div_le m (2 ^ Z.pos k) Hk) as Hq.
  assert (Hq0 : 0 <= m / 2 ^ Z.pos k) by (apply Z.div_pos; lia).
  split; [exact Hq0|].
  set (q := m / 2 ^ Z.pos k) in *. clearbody q.
  destruct (Z.le_gt_cases 0 e) as [He|He].
  - rewrite le_int_nonneg_exp in Hle by lia.
    rewrite le_int_nonneg_exp by lia.
    rewrite Z.pow_add_r by lia.
    assert (0 < 2 ^ e) by (apply pow2_pos; lia). nia.
  - rewrite le_int_nonpos_exp in Hle by lia.
    destruct (Z.le_gt_cases 0 (e + Z.pos k)) as [Hek|Hek].
    + rewrite le_int_nonneg_exp by lia.
      assert (HA : 0 < 2 ^ (e + Z.pos k)) by (apply pow2_pos; lia).
      assert (HB : 0 < 2 ^ (- e)) by (apply pow2_pos; lia).
      assert (HAB : 2 ^ Z.pos k = 2 ^ (e + Z.pos k) * 2 ^ (- e)).
      { rewrite <- Z.pow_add_r by lia. f_equal. lia. }
      rewrite HAB in Hq. nia.
    + rewrite le_int_nonpos_exp by lia.
      assert (HC : 0 < 2 ^ (- (e + Z.pos k))) by (apply pow2_pos; lia).
      assert (HCk : 2 ^ (- e) = 2 ^ (- (e + Z.pos k)) * 2 ^ Z.pos k).
      { rewrite <- Z.pow_add_r by lia. f_equal. lia. }
      rewrite HCk in Hle. nia.
Qed.

Lemma Zdigits2_bounds m :
  0 < m -> 2 ^ (Zdigits2 m - 1) <= m < 2 ^ Zdigits2 m.
Proof.
  destruct m as [|p|p]; try lia. intros _. apply digits2_bounds.
Qed.

Lemma Zdigits2_pos m : 0 < m -> 0 < Zdigits2 m.
Proof. destruct m; cbn; lia. Qed.

Lemma shift_round_le m e N :
  0 < m -> 0 <= N <= 2 ^ 53 -> le_int m e N ->
  let k := fexp prec emax (Zdigits2 m + e) - e in
  0 <= fst (shift_round m e k) /\
  le_int (fst (shift_round m e k)) (snd (shift_round m e k)) N.
Proof.
  intros Hm HN Hle k.
  split; [apply shift_round_nonneg; lia|].
  pose proof (Zdigits2_bounds m Hm) as Hd.
  pose proof (Zdigits2_pos m Hm) as Hd0.
  subst k. rewrite fexp_eq.
  set (d := Zdigits2 m) in *. clearbody d.
  destruct (Z.max (d + e - 53) (-1074) - e) as [|k|k] eqn:Hk;
    cbn [shift_round fst snd]; try exact Hle.
  assert (Hk' : Z.max (d + e - 53) (-1074) = e + Z.pos k) by lia.
  clear Hk.
  assert (Hpk : 0 < 2 ^ Z.pos k) by (apply pow2_pos; lia).
  destruct (Z.lt_ge_cases 0 e) as [He|He].
  - (* a positive exponent leaves no room for a shift *)
    exfalso.
    rewrite le_int_nonneg_exp in Hle by lia.
    assert (Hd53 : 53 <= d - 1) by lia.
    assert (H1 : 2 ^ 53 <= 2 ^ (d - 1)) by (apply Z.pow_le_mono_r; lia).
    assert (H2 : 2 ^ 1 <= 2 ^ e) by (apply Z.pow_le_mono_r; lia).
    change (2 ^ 1) with 2 in H2. nia.
  - rewrite le_int_nonpos_exp in Hle by lia.
    assert (HB : 0 < 2 ^ (- e)) by (apply pow2_pos; lia).
    assert (Hf1 : e + Z.pos k <= 1).
    { destruct (Z.le_gt_cases (e + Z.pos k) 1) as [|Hgt]; [assumption|exfalso].
      assert (Hd54 : 54 - e <= d - 1) by lia.
      assert (H1 : 2 ^ (54 - e) <= 2 ^ (d - 1)) by (apply Z.pow_le_mono_r; lia).
      replace (54 - e) with (54 + - e) in H1 by lia.
      rewrite Z.pow_add_r in H1 by lia.
      assert (2 ^ 54 = 2 * 2 ^ 53) by reflexivity. nia. }
    destruct (Z.le_gt_cases (e + Z.pos k) 0) as [Hf0|Hf0].
    + rewrite le_int_nonpos_exp by lia.
      apply rne_grid; [lia | exact Hpk |].
      rewrite <- Z.mul_assoc, <- Z.pow_add_r by lia.
      replace (- (e + Z.pos k) + Z.pos k) with (- e) by lia. exact Hle.
    + assert (Hf : e + Z.pos k = 1) by lia.
      rewrite le_int_nonneg_exp by lia. rewrite Hf. change (2 ^ 1) with 2.
      assert (Hde : d - 1 = 53 + - e) by lia.
      rewrite Hde, Z.pow_add_r in Hd by lia.
      assert (HN53 : N = 2 ^ 53) by nia.
      assert (Hm53 : m = 2 ^ 52 * 2 ^ Z.pos k).
      { replace (Z.pos k) with (1 + - e) by lia.
        rewrite Z.pow_add_r by lia. change (2 ^ 1) with 2.
        assert (2 ^ 53 = 2 * 2 ^ 52) by reflexivity. nia. }
      assert (Hr : rne m (2 ^ Z.pos k) <= 2 ^ 52).
      { apply rne_grid; [lia | exact Hpk | lia]. }
      rewrite HN53. assert (2 ^ 53 = 2 * 2 ^ 52) by reflexivity. lia.
Qed.

Lemma round_spec_le s m e N :
  0 < m -> 0 <= N <= 2 ^ 53 -> le_int m e N ->
  round_spec s m e = S754_zero s \/
  exists p e2, round_spec s m e = S754_finite s p e2 /\ le_int (Z.pos p) e2 N.
Proof.
  intros Hm HN Hle. unfold round_spec.
  pose proof (shift_round_le m e N Hm HN Hle) as H1. cbv zeta in H1.
  destruct (shift_round m e (fexp prec emax (Zdigits2 m + e) - e)) as [m1 e1].
  cbn [fst snd] in H1. destruct H1 as [Hm1 Hle1].
  pose proof (shift_trunc_le m1 e1 (fexp prec emax (Zdigits2 m1 + e1) - e1) N
                Hm1 Hle1) as H2.
  destruct (shift_trunc m1 e1 (fexp prec emax (Zdigits2 m1 + e1) - e1))
    as [m2 e2].
  cbn [fst snd] in H2. destruct H2 as [Hm2 Hle2].
  destruct m2 as [|p|p]; [left; reflexivity| |lia].
  right. exists p, e2.
  destruct (Z.leb_spec e2 (emax - prec)) as [_|Hbig]; [split; [reflexivity|exact Hle2]|].
  exfalso. change (emax - prec) with 971 in Hbig.
  rewrite le_int_nonneg_exp in Hle2 by lia.
  assert (H54 : 2 ^ 54 <= 2 ^ e2) by (apply Z.pow_le_mono_r; lia).
  assert (2 ^ 54 = 2 * 2 ^ 53) by reflexivity. nia.
Qed.

Lemma round_spec_sign s m e :
  0 <= m ->
  match round_spec s m e with
  | S754_zero b | S754_infinity b | S754_finite b _ _ => b = s
  | S754_nan => False
  end.
Proof.
  intros Hm. unfold round_spec.
  pose proof (shift_round_nonneg m e (fexp prec emax (Zdigits2 m + e) - e) Hm) as H1.
  destruct (shift_round m e (fexp prec emax (Zdigits2 m + e) - e)) as [m1 e1].
  cbn [fst] in H1.
  assert (H2 : 0 <= fst (shift_trunc m1 e1 (fexp prec emax (Zdigits2 m1 + e1) - e1))).
  { destruct (fexp prec emax (Zdigits2 m1 + e1) - e1); cbn [shift_trunc fst];
      try exact H1. apply Z.div_pos; [exact H1 | apply pow2_pos; lia]. }
  destruct (shift_trunc m1 e1 (fexp prec emax (Zdigits2 m1 + e1) - e1))
    as [m2 e2].
  cbn [fst] in H2. destruct m2 as [|p|p]; [reflexivity| |lia].
  destruct (e2 <=? emax - prec); reflexivity.
Qed.

Lemma round_half_even_eq_rne m e :
  e < 0 -> round_half_even m e = rne (Z.pos m) (2 ^ (- e)).
Proof.
  intros He. unfold round_half_even, rne.
  destruct (Z.leb_spec 0 e); [lia | reflexivity].
Qed.

Lemma round_half_even_nonneg m e : 0 <= round_half_even m e.
Proof.
  destruct (Z.le_gt_cases 0 e) as [He|He].
  - unfold round_half_even. destruct (Z.leb_spec 0 e); [|lia].
    assert (0 < 2 ^ e) by (apply pow2_pos; lia). nia.
  - rewrite round_half_even_eq_rne by exact He.
    apply rne_nonneg; [lia | apply pow2_pos; lia].
Qed.

Lemma round_half_even_le m e N : le_int (Z.pos m) e N -> round_half_even m e <= N.
Proof.
  intros Hle. destruct (Z.le_gt_cases 0 e) as [He|He].
  - rewrite le_int_nonneg_exp in Hle by lia.
    unfold round_half_even. destruct (Z.leb_spec 0 e); [exact Hle | lia].
  - rewrite le_int_nonpos_exp in Hle by lia.
    rewrite round_half_even_eq_rne by exact He.
    apply rne_grid; [lia | apply pow2_pos; lia | exact Hle].
Qed.

Lemma iter_xO m d : Z.pos (Pos.iter xO m d) = Z.pos m * 2 ^ Z.pos d.
Proof.
  induction d as [|d IH] using Pos.peano_ind.
  - cbn [Pos.iter]. change (2 ^ Z.pos 1) with 2. lia.
  - rewrite Pos.iter_succ, Pos2Z.inj_xO, IH, Pos2Z.inj_succ.
    rewrite Z.pow_succ_r by lia. lia.
Qed.

Lemma shl_align_int_le q ex' :
  let '(mz, ez) := shl_align q 0 ex' in le_int (Z.pos mz) ez (Z.pos q).
Proof.
  unfold shl_align. destruct (ex' - 0) as [|d|d] eqn:Hd.
  - rewrite le_int_nonneg_exp by lia. cbn. lia.
  - rewrite le_int_nonneg_exp by lia. cbn. lia.
  - assert (Hex : ex' = - Z.pos d) by lia. subst ex'.
    rewrite le_int_nonpos_exp by lia. rewrite iter_xO.
    rewrite Z.opp_involutive. lia.
Qed.

Lemma binary_normalize_le n :
  0 < n <= 2 ^ 53 ->
  binary_normalize prec emax n 0 false = S754_zero false \/
  exists p e, binary_normalize prec emax n 0 false = S754_finite false p e /\
              le_int (Z.pos p) e n.
Proof.
  intros Hn. destruct n as [|q|q]; try lia.
  cbn [binary_normalize]. unfold binary_round.
  pose proof (shl_align_int_le q (fexp prec emax (Z.pos (digits2_pos q) + 0))) as Hs.
  destruct (shl_align q 0 (fexp prec emax (Z.pos (digits2_pos q) + 0))) as [mz ez].
  rewrite binary_round_aux_spec by lia.
  apply round_spec_le; [lia | lia | exact Hs].
Qed.

Lemma float_of_int_le n :
  0 <= n <= 2 ^ 53 ->
  float_of_int n = Ok (S754_zero false) \/
  exists p e, float_of_int n = Ok (S754_finite false p e) /\
              le_int (Z.pos p) e n.
Proof.
  intros Hn. unfold float_of_int.
  destruct (Z.eq_dec n 0) as [->|Hn0]; [left; reflexivity|].
  destruct (binary_normalize_le n ltac:(lia)) as [->|(p & e & -> & Hle)].
  - left; reflexivity.
  - right. exists p, e. split; [reflexivity | exact Hle].
Qed.

Lemma float_of_int_sign n x :
  0 <= n -> float_of_int n = Ok x ->
  x = S754_zero false \/ exists p e, x = S754_finite false p e.
Proof.
  intros Hn. unfold float_of_int.
  destruct n as [|q|q]; try lia.
  - cbn. intros [= <-]. left; reflexivity.
  - cbn [binary_normalize]. unfold binary_round.
    destruct (shl_align q 0 (fexp prec emax (Z.pos (digits2_pos q) + 0))) as [mz ez].
    rewrite binary_round_aux_spec by lia.
    pose proof (round_spec_sign false (Z.pos mz) ez ltac:(lia)) as Hs.
    destruct (round_spec false (Z.pos mz) ez) as [b|b| |b p e];
      try discriminate; try contradiction; subst b; intros [= <-].
    + left; reflexivity.
    + right; eauto.
Qed.

Lemma canonical_digits m e :
  canonical_mantissa prec emax m e = true -> Z.pos m < 2 ^ 53.
Proof.
  unfold canonical_mantissa. rewrite fexp_eq. intros H.
  apply Z.eqb_eq in H.
  pose proof (digits2_bounds m) as [_ Hd].
  assert (Hle : Z.pos (digits2_pos m) <= 53) by lia.
  apply Z.lt_le_trans with (1 := Hd). apply Z.pow_le_mono_r; lia.
Qed.

(** ** Percentiles between 0 and 1 *)

Lemma SFleb_finite_pos m e c ec :
  SFleb (S754_finite false m e) (S754_finite false c ec) = true ->
  e < ec \/ (e = ec /\ Z.pos m <= Z.pos c).
Proof.
  unfold SFleb. cbn [SFcompare].
  destruct (Z.compare_spec e ec) as [He|He|He]; try discriminate.
  - intros H. right. split; [exact He|].
    fold (Pos.compare m c) in H.
    destruct (Pos.compare_spec m c) as [Hm|Hm|Hm]; try discriminate; lia.
  - intros _. left. exact He.
Qed.


Lemma float_lit_one : float_lit 1 0 = one_bits.
Proof. vm_compute. reflexivity. Qed.

Lemma unit_interval_cases h :
  is_float h = true ->
  fle (float_lit 0 0) h = true ->
  fle h (float_lit 1 0) = true ->
  (exists b, h = S754_zero b) \/
  (exists m e, h = S754_finite false m e /\ e <= 0 /\ Z.pos m <= 2 ^ (- e)).
Proof.
  rewrite float_lit_one.
  change (float_lit 0 0) with (S754_zero false).
  unfold is_float, fle, one_bits.
  destruct h as [b|b| |b m e].
  - intros _ _ _. left; eauto.
  - destruct b; discriminate.
  - discriminate.
  - intros Hv H0 H1. right. exists m, e.
    destruct b; [discriminate|].
    cbn [valid_binary] in Hv.
    apply andb_true_iff in Hv. destruct Hv as [Hc _].
    apply canonical_digits in Hc.
    split; [reflexivity|].
    apply SFleb_finite_pos in H1. destruct H1 as [He|[He Hm]].
    + split; [lia|].
      apply Z.lt_le_incl, Z.lt_le_trans with (1 := Hc).
      apply Z.pow_le_mono_r; lia.
    + subst e. split; [lia|].
      assert (E : 2 ^ (- -52) = Z.pos 4503599627370496) by (vm_compute; reflexivity).
      rewrite E. exact Hm.
Qed.

Lemma le_int_mul mx ex mh eh N :
  0 <= mx -> 0 <= N -> 0 <= mh ->
  le_int mx ex N -> eh <= 0 -> mh <= 2 ^ (- eh) ->
  le_int (mx * mh) (ex + eh) N.
Proof.
  intros Hmx HN Hmh Hle Heh Hh.
  assert (HH : 0 < 2 ^ (- eh)) by (apply pow2_pos; lia).
  destruct (Z.le_gt_cases 0 ex) as [Hex|Hex].
  - rewrite le_int_nonneg_exp in Hle by lia.
    assert (HX : 0 < 2 ^ ex) by (apply pow2_pos; lia).
    destruct (Z.le_gt_cases 0 (ex + eh)) as [He|He].
    + rewrite le_int_nonneg_exp by lia.
      assert (HA : 0 < 2 ^ (ex + eh)) by (apply pow2_pos; lia).
      assert (Hsplit : 2 ^ ex = 2 ^ (ex + eh) * 2 ^ (- eh)).
      { rewrite <- Z.pow_add_r by lia. f_equal. lia. }
      rewrite Hsplit in Hle.
      apply Z.le_trans with (mx * (2 ^ (ex + eh) * 2 ^ (- eh))); [|exact Hle].
      rewrite <- Z.mul_assoc. apply Z.mul_le_mono_nonneg_l; [exact Hmx|].
      rewrite (Z.mul_comm (2 ^ (ex + eh))).
      apply Z.mul_le_mono_nonneg_r; lia.
    + rewrite le_int_nonpos_exp by lia.
      assert (HC : 0 < 2 ^ (- (ex + eh))) by (apply pow2_pos; lia).
      assert (Hsplit : 2 ^ (- eh) = 2 ^ (- (ex + eh)) * 2 ^ ex).
      { rewrite <- Z.pow_add_r by lia. f_equal. lia. }
      rewrite Hsplit in Hh.
      assert (H1 : mx * mh * 2 ^ ex <= N * 2 ^ (- (ex + eh)) * 2 ^ ex).
      { apply Z.le_trans with (mx * 2 ^ ex * (2 ^ (- (ex + eh)) * 2 ^ ex)).
        - replace (mx * mh * 2 ^ ex) with (mx * 2 ^ ex * mh) by ring.
          apply Z.mul_le_mono_nonneg_l; [nia | exact Hh].
        - replace (N * 2 ^ (- (ex + eh)) * 2 ^ ex)
            with (N * (2 ^ (- (ex + eh)) * 2 ^ ex)) by ring.
          apply Z.mul_le_mono_nonneg_r; [nia | exact Hle]. }
      apply Z.mul_le_mono_pos_r in H1; [exact H1 | exact HX].
  - rewrite le_int_nonpos_exp in Hle by lia.
    rewrite le_int_nonpos_exp by lia.
    replace (- (ex + eh)) with (- ex + - eh) by lia.
    rewrite Z.pow_add_r by lia.
    assert (HX : 0 < 2 ^ (- ex)) by (apply pow2_pos; lia).
    rewrite Z.mul_assoc.
    apply Z.mul_le_mono_nonneg; lia.
Qed.

Lemma fmul_round_bounds n x h :
  0 <= n <= 2 ^ 53 ->
  (x = S754_zero false \/
   exists p e, x = S754_finite false p e /\ le_int (Z.pos p) e n) ->
  ((exists b, h = S754_zero b) \/
   (exists m e, h = S754_finite false m e /\ e <= 0 /\ Z.pos m <= 2 ^ (- e))) ->
  exists ch, round (x * h)%flt = Ok ch /\ 0 <= ch <= n.
Proof.
  intros Hn Hx Hh. unfold fmul.
  destruct Hx as [->|(p & e & -> & Hle)];
    destruct Hh as [(b & ->)|(m & eh & -> & Heh & Hm)]; cbn [SFmul];
    try (exists 0; split; [reflexivity | lia]).
  rewrite binary_round_aux_spec by lia. cbn [xorb].
  assert (Hprod : le_int (Z.pos (p * m)) (e + eh) n).
  { rewrite Pos2Z.inj_mul. apply le_int_mul; try lia; assumption. }
  destruct (round_spec_le false (Z.pos (p * m)) (e + eh) n ltac:(lia) Hn Hprod)
    as [->|(q & e2 & -> & Hq)].
  - exists 0; split; [reflexivity | lia].
  - exists (round_half_even q e2). split; [reflexivity|].
    split; [apply round_half_even_nonneg | apply round_half_even_le; exact Hq].
Qed.
(** ** The range of a rounded float *)

Lemma Zdigits2_le m j : 0 < m -> m < 2 ^ j -> Zdigits2 m <= j.
Proof.
  intros Hm Hj. pose proof (Zdigits2_bounds m Hm) as [Hlo _].
  pose proof (Zdigits2_pos m Hm) as Hd.
  destruct (Z.le_gt_cases (Zdigits2 m) j) as [|Hgt]; [assumption|exfalso].
  assert (0 <= j).
  { destruct (Z.le_gt_cases 0 j); [assumption|].
    rewrite Z.pow_neg_r in Hj by lia. lia. }
  assert (2 ^ j <= 2 ^ (Zdigits2 m - 1)) by (apply Z.pow_le_mono_r; lia).
  lia.
Qed.

Lemma shift_round_mantissa m e :
  0 < m ->
  let k := fexp prec emax (Zdigits2 m + e) - e in
  0 <= fst (shift_round m e k) <= 2 ^ 53 /\
  -1074 <= snd (shift_round m e k).
Proof.
  intros Hm k.
  pose proof (Zdigits2_bounds m Hm) as Hd.
  pose proof (Zdigits2_pos m Hm) as Hd0.
  pose proof (shift_round_nonneg m e k ltac:(lia)) as Hnn.
  subst k. rewrite fexp_eq in *.
  set (d := Zdigits2 m) in *. clearbody d.
  destruct (Z.max (d + e - 53) (-1074) - e) as [|k|k] eqn:Hk;
    cbn [shift_round fst snd] in *.
  - split; [|lia]. split; [lia|].
    assert (2 ^ d <= 2 ^ 53) by (apply Z.pow_le_mono_r; lia). lia.
  - split; [|lia]. split; [exact Hnn|].
    assert (Hpk : 0 < 2 ^ Z.pos k) by (apply pow2_pos; lia).
    pose proof (rne_bounds m (2 ^ Z.pos k) ltac:(lia) Hpk) as Hr.
    assert (Hq : m / 2 ^ Z.pos k < 2 ^ 53).
    { apply Z.div_lt_upper_bound; [exact Hpk|].
      rewrite <- Z.pow_add_r by lia.
      apply Z.lt_le_trans with (2 ^ d); [lia|].
      apply Z.pow_le_mono_r; lia. }
    lia.
  - split; [|lia]. split; [lia|].
    assert (2 ^ d <= 2 ^ 53) by (apply Z.pow_le_mono_r; lia). lia.
Qed.

Lemma round_spec_mantissa s m e b q e2 :
  0 < m -> round_spec s m e = S754_finite b q e2 ->
  Z.pos q < 2 ^ 53 /\ e2 <= 971.
Proof.
  intros Hm. unfold round_spec.
  pose proof (shift_round_mantissa m e Hm) as H1. cbv zeta in H1.
  destruct (shift_round m e (fexp prec emax (Zdigits2 m + e) - e)) as [m1 e1].
  cbn [fst snd] in H1. destruct H1 as [Hm1 He1].
  rewrite fexp_eq.
  assert (H2 : fst (shift_trunc m1 e1 (Z.max (Zdigits2 m1 + e1 - 53) (-1074) - e1))
               < 2 ^ 53).
  { destruct (Z.eq_dec m1 (2 ^ 53)) as [->|Hne].
    - change (Zdigits2 (2 ^ 53)) with 54.
      replace (Z.max (54 + e1 - 53) (-1074) - e1) with 1 by lia.
      vm_compute. reflexivity.
    - destruct (Z.max (Zdigits2 m1 + e1 - 53) (-1074) - e1) as [|k|k];
        cbn [shift_trunc fst]; try lia.
      assert (Hpk : 0 < 2 ^ Z.pos k) by (apply pow2_pos; lia).
      pose proof (Z.mul_div_le m1 (2 ^ Z.pos k) Hpk).
      assert (0 <= m1 / 2 ^ Z.pos k) by (apply Z.div_pos; lia).
      nia. }
  destruct (shift_trunc m1 e1 (Z.max (Zdigits2 m1 + e1 - 53) (-1074) - e1))
    as [m2 e2'].
  cbn [fst] in H2.
  destruct m2 as [|p|p]; try discriminate.
  destruct (Z.leb_spec e2' (emax - prec)) as [Hle|Hgt]; try discriminate.
  intros [= _ <- <-]. split; [exact H2|]. exact Hle.
Qed.


Lemma rne_below m U G :
  0 <= m -> 0 < U -> m < (2 * G + 1) * U -> rne m (2 * U) <= G.
Proof.
  intros Hm HU Hlt. unfold rne.
  pose proof (Z.div_mod m (2 * U) ltac:(lia)) as Hdm.
  pose proof (Z.mod_pos_bound m (2 * U) ltac:(lia)) as Hr.
  set (q := m / (2 * U)) in *. set (r := m mod (2 * U)) in *. clearbody q r.
  assert (Hq : q <= G) by nia.
  destruct (Z.eq_dec q G) as [->|Hne].
  - assert (r < U) by nia.
    destruct (Z.compare_spec (2 * r) (2 * U)); lia.
  - destruct (Z.compare_spec (2 * r) (2 * U)); try destruct (Z.even q); lia.
Qed.

Lemma limit_split e :
  e <= 0 ->
  float_int_limit * 2 ^ (- e) = (2 * (2 ^ 53 - 1) + 1) * (2 ^ 970 * 2 ^ (- e)) /\
  2 ^ (971 - e) = 2 * (2 ^ 970 * 2 ^ (- e)) /\
  float_int_limit * 2 ^ (- e) < 2 ^ (1024 - e).
Proof.
  intros He.
  assert (HB : 0 < 2 ^ (- e)) by (apply pow2_pos; lia).
  assert (H1 : float_int_limit = (2 * (2 ^ 53 - 1) + 1) * 2 ^ 970)
    by (vm_compute; reflexivity).
  assert (H2 : 2 ^ (971 - e) = 2 ^ 971 * 2 ^ (- e)).
  { rewrite <- Z.pow_add_r by lia. f_equal; lia. }
  assert (H3 : 2 ^ (1024 - e) = 2 ^ 1024 * 2 ^ (- e)).
  { rewrite <- Z.pow_add_r by lia. f_equal; lia. }
  assert (H4 : 2 ^ 971 = 2 * 2 ^ 970) by (vm_compute; reflexivity).
  assert (H5 : float_int_limit < 2 ^ 1024) by (vm_compute; reflexivity).
  rewrite H1 in *. rewrite H2, H3, H4.
  repeat split; try ring. apply Z.mul_lt_mono_pos_r; assumption.
Qed.

Lemma shift_round_aligned m e :
  0 < m -> e <= 0 ->
  0 <= fexp prec emax (Zdigits2 m + e) - e ->
  m < float_int_limit * 2 ^ (- e) ->
  let k := fexp prec emax (Zdigits2 m + e) - e in
  let m1 := fst (shift_round m e k) in
  let e1 := snd (shift_round m e k) in
  0 <= m1 <= 2 ^ 53 /\ -1074 <= e1 <= 971 /\ (e1 = 971 -> m1 < 2 ^ 53).
Proof.
  intros Hm He Hk Hlt k m1 e1.
  pose proof (shift_round_mantissa m e Hm) as [Hm1 He1]. fold k in Hm1, He1.
  fold m1 in Hm1. fold e1 in He1.
  pose proof (Zdigits2_bounds m Hm) as Hd.
  pose proof (Zdigits2_pos m Hm) as Hd0.
  destruct (limit_split e He) as (HT1 & HT2 & HT3).
  assert (Hde : Zdigits2 m + e <= 1024).
  { destruct (Z.le_gt_cases (Zdigits2 m + e) 1024) as [|Hgt]; [assumption|exfalso].
    assert (2 ^ (1024 - e) <= 2 ^ (Zdigits2 m - 1)) by (apply Z.pow_le_mono_r; lia).
    lia. }
  subst m1 e1 k. rewrite fexp_eq in *.
  set (d := Zdigits2 m) in *. clearbody d.
  destruct (Z.max (d + e - 53) (-1074) - e) as [|k|k] eqn:Ek;
    cbn [shift_round fst snd] in *; try lia.
  split; [lia|]. split; [lia|].
  intros E.
  assert (Hk971 : Z.pos k = 971 - e) by lia.
  rewrite Hk971, HT2.
  assert (HU : 0 < 2 ^ 970 * 2 ^ (- e)).
  { apply Z.mul_pos_pos; apply pow2_pos; lia. }
  assert (Hr : rne m (2 * (2 ^ 970 * 2 ^ (- e))) <= 2 ^ 53 - 1).
  { apply rne_below; [lia | exact HU | lia]. }
  lia.
Qed.

Lemma round_spec_no_overflow s m e :
  0 < m -> e <= 0 ->
  0 <= fexp prec emax (Zdigits2 m + e) - e ->
  m < float_int_limit * 2 ^ (- e) ->
  is_finite (round_spec s m e) = true.
Proof.
  intros Hm He Hk Hlt.
  pose proof (shift_round_aligned m e Hm He Hk Hlt) as H1. cbv zeta in H1.
  unfold round_spec.
  destruct (shift_round m e (fexp prec emax (Zdigits2 m + e) - e)) as [m1 e1].
  cbn [fst snd] in H1. destruct H1 as (Hm1 & He1 & Htop).
  rewrite fexp_eq.
  destruct (Z.eq_dec m1 0) as [->|Hm0].
  { change (Zdigits2 0) with 0.
    destruct (Z.max (0 + e1 - 53) (-1074) - e1) as [|k|k] eqn:Ek;
      cbn [shift_trunc]; reflexivity. }
  assert (Hd1 : Zdigits2 m1 <= 54).
  { apply Zdigits2_le; [lia|].
    assert (2 ^ 54 = 2 * 2 ^ 53) by reflexivity. lia. }
  assert (Hd1' : e1 = 971 -> Zdigits2 m1 <= 53).
  { intros E. apply Zdigits2_le; [lia | auto]. }
  pose proof (Zdigits2_pos m1 ltac:(lia)) as Hd1p.
  set (d1 := Zdigits2 m1) in *. clearbody d1.
  destruct (Z.max (d1 + e1 - 53) (-1074) - e1) as [|k|k] eqn:Ek;
    cbn [shift_trunc].
  - destruct m1 as [|p|p]; try lia.
    destruct (Z.leb_spec e1 (emax - prec)) as [|Hgt]; [reflexivity|].
    change (emax - prec) with 971 in Hgt. lia.
  - destruct (m1 / 2 ^ Z.pos k) as [|p|p] eqn:Eq; try reflexivity.
    + destruct (Z.leb_spec (e1 + Z.pos k) (emax - prec)) as [|Hgt]; [reflexivity|].
      change (emax - prec) with 971 in Hgt.
      assert (e1 = 971 \/ e1 <= 970) by lia. lia.
    + assert (0 <= m1 / 2 ^ Z.pos k)
        by (apply Z.div_pos; [lia | apply pow2_pos; lia]).
      lia.
  - destruct m1 as [|p|p]; try lia.
    destruct (Z.leb_spec e1 (emax - prec)) as [|Hgt]; [reflexivity|].
    change (emax - prec) with 971 in Hgt. lia.
Qed.

Lemma digits_iter_xO q j :
  Z.pos (digits2_pos (Pos.iter xO q j)) = Z.pos (digits2_pos q) + Z.pos j.
Proof.
  induction j as [|j IH] using Pos.peano_ind.
  - cbn [Pos.iter digits2_pos]. lia.
  - rewrite Pos.iter_succ. cbn [digits2_pos].
    rewrite Pos2Z.inj_succ, IH. lia.
Qed.

Lemma shl_align_aligned q :
  let '(mz, ez) :=
    shl_align q 0 (fexp prec emax (Z.pos (digits2_pos q) + 0)) in
  ez <= 0 /\
  Z.pos mz = Z.pos q * 2 ^ (- ez) /\
  0 <= fexp prec emax (Zdigits2 (Z.pos mz) + ez) - ez.
Proof.
  unfold shl_align. rewrite fexp_eq.
  destruct (Z.max (Z.pos (digits2_pos q) + 0 - 53) (-1074) - 0) as [|k|j] eqn:E.
  - cbn [Zdigits2]. rewrite fexp_eq. change (2 ^ (- 0)) with 1. lia.
  - cbn [Zdigits2]. rewrite fexp_eq. change (2 ^ (- 0)) with 1. lia.
  - cbn [Zdigits2]. rewrite fexp_eq, digits_iter_xO, iter_xO.
    assert (Ej : Z.max (Z.pos (digits2_pos q) + 0 - 53) (-1074) = - Z.pos j) by lia.
    rewrite Ej, Z.opp_involutive. lia.
Qed.

Lemma binary_round_finite s q :
  Z.pos q < float_int_limit ->
  is_finite (binary_round prec emax s q 0) = true.
Proof.
  intros Hq. unfold binary_round.
  pose proof (shl_align_aligned q) as H.
  destruct (shl_align q 0 (fexp prec emax (Z.pos (digits2_pos q) + 0)))
    as [mz ez].
  destruct H as (Hez & Hmz & Hal).
  rewrite binary_round_aux_spec by lia.
  apply round_spec_no_overflow; try lia.
  rewrite Hmz. apply Z.mul_lt_mono_pos_r; [apply pow2_pos; lia | exact Hq].
Qed.

Lemma float_of_int_ok c :
  Z.abs c < float_int_limit -> exists y, float_of_int c = Ok y.
Proof.
  intros Hc. unfold float_of_int.
  destruct c as [|q|q]; cbn [binary_normalize].
  - eexists; reflexivity.
  - pose proof (binary_round_finite false q Hc) as Hf.
    destruct (binary_round prec emax false q 0); try discriminate;
      eexists; reflexivity.
  - pose proof (binary_round_finite true q Hc) as Hf.
    destruct (binary_round prec emax true q 0); try discriminate;
      eexists; reflexivity.
Qed.

Lemma rne_above m U G :
  0 <= m -> 0 < U -> Z.odd G = true -> (2 * G + 1) * U <= m ->
  G + 1 <= rne m (2 * U).
Proof.
  intros Hm HU HG Hge. unfold rne.
  pose proof (Z.div_mod m (2 * U) ltac:(lia)) as Hdm.
  pose proof (Z.mod_pos_bound m (2 * U) ltac:(lia)) as Hr.
  set (q := m / (2 * U)) in *. set (r := m mod (2 * U)) in *. clearbody q r.
  assert (Hq : G <= q) by nia.
  destruct (Z.eq_dec q G) as [->|Hne].
  - assert (U <= r) by nia.
    destruct (Z.compare_spec (2 * r) (2 * U)); try lia.
    rewrite <- Z.negb_odd, HG. cbn [negb]. lia.
  - destruct (Z.compare_spec (2 * r) (2 * U)); try destruct (Z.even q); lia.
Qed.

Lemma Zdigits2_ge m j : 0 <= j -> 2 ^ j <= m -> j < Zdigits2 m.
Proof.
  intros Hj Hm.
  assert (Hpos : 0 < m) by (pose proof (pow2_pos j Hj); lia).
  pose proof (Zdigits2_bounds m Hpos) as [_ Hhi].
  pose proof (Zdigits2_pos m Hpos).
  destruct (Z.lt_ge_cases j (Zdigits2 m)) as [|Hge]; [assumption|exfalso].
  assert (2 ^ Zdigits2 m <= 2 ^ j) by (apply Z.pow_le_mono_r; lia).
  lia.
Qed.

Lemma round_spec_overflow s m e :
  0 < m -> e <= 0 ->
  float_int_limit * 2 ^ (- e) <= m ->
  round_spec s m e = S754_infinity s.
Proof.
  intros Hm He Hge.
  pose proof (Zdigits2_bounds m Hm) as Hd.
  pose proof (shift_round_mantissa m e Hm) as [Hm1 _]. cbv zeta in Hm1.
  destruct (limit_split e He) as (HT1 & HT2 & _).
  assert (HB : 0 < 2 ^ (- e)) by (apply pow2_pos; lia).
  assert (Hde : 1024 <= Zdigits2 m + e).
  { assert (H1023 : 2 ^ 1023 <= float_int_limit) by (vm_compute; discriminate).
    assert (H : 1023 - e < Zdigits2 m).
    { apply Zdigits2_ge; [lia|].
      replace (1023 - e) with (1023 + - e) by lia.
      rewrite Z.pow_add_r by lia. nia. }
    lia. }
  unfold round_spec. rewrite fexp_eq in *.
  set (d := Zdigits2 m) in *. clearbody d.
  replace (Z.max (d + e - 53) (-1074) - e) with (d - 53) in * by lia.
  destruct (d - 53) as [|k|k] eqn:Ek; try lia.
  cbn [shift_round fst] in *.
  assert (Hpk : 0 < 2 ^ Z.pos k) by (apply pow2_pos; lia).
  assert (Hlow : 2 ^ 52 <= rne m (2 ^ Z.pos k)).
  { pose proof (rne_bounds m (2 ^ Z.pos k) ltac:(lia) Hpk) as Hr.
    assert (2 ^ 52 <= m / 2 ^ Z.pos k); [|lia].
    apply Z.div_le_lower_bound; [exact Hpk|].
    rewrite <- Z.pow_add_r by lia.
    replace (Z.pos k + 52) with (d - 1) by lia. lia. }
  assert (Htop : e + Z.pos k = 971 -> rne m (2 ^ Z.pos k) = 2 ^ 53).
  { intros E. replace (Z.pos k) with (971 - e) in * by lia.
    rewrite HT2 in *.
    assert (2 ^ 53 - 1 + 1 <= rne m (2 * (2 ^ 970 * 2 ^ (- e)))); [|lia].
    apply rne_above; [lia | | reflexivity | lia].
    apply Z.mul_pos_pos; [apply pow2_pos; lia | exact HB]. }
  set (m1 := rne m (2 ^ Z.pos k)) in *. clearbody m1.
  rewrite fexp_eq.
  assert (Hd1 : 53 <= Zdigits2 m1 <= 54).
  { split.
    - assert (52 < Zdigits2 m1) by (apply Zdigits2_ge; lia). lia.
    - apply Zdigits2_le; [lia|].
      assert (2 ^ 54 = 2 * 2 ^ 53) by reflexivity. lia. }
  assert (Hd1' : m1 = 2 ^ 53 -> Zdigits2 m1 = 54).
  { intros ->. reflexivity. }
  set (d1 := Zdigits2 m1) in *. clearbody d1.
  replace (Z.max (d1 + (e + Z.pos k) - 53) (-1074) - (e + Z.pos k))
    with (d1 - 53) by lia.
  assert (Hcase : d1 = 53 \/ d1 = 54) by lia.
  destruct Hcase as [->| ->].
  - change (53 - 53) with 0. cbn [shift_trunc].
    destruct m1 as [|p|p]; try lia.
    destruct (Z.leb_spec (e + Z.pos k) (emax - prec)) as [Hle|]; [|reflexivity].
    change (emax - prec) with 971 in Hle.
    assert (e + Z.pos k = 971) by lia.
    specialize (Htop ltac:(assumption)). specialize (Hd1' Htop). lia.
  - change (54 - 53) with 1. cbn [shift_trunc].
    change (2 ^ 1) with 2.
    assert (2 ^ 53 = 2 * 2 ^ 52) by reflexivity.
    assert (Hq : 2 ^ 51 <= m1 / 2).
    { apply Z.div_le_lower_bound; [lia|].
      assert (2 ^ 52 = 2 * 2 ^ 51) by reflexivity. lia. }
    destruct (m1 / 2) as [|p|p]; try lia.
    destruct (Z.leb_spec (e + Z.pos k + 1) (emax - prec)) as [Hle|]; [|reflexivity].
    change (emax - prec) with 971 in Hle. lia.
Qed.

(** ** The counts within their range *)

Lemma fmul_round_nonneg x h ch :
  (x = S754_zero false \/ exists p e, x = S754_finite false p e) ->
  ((exists b, h = S754_zero b) \/
   (exists m e, h = S754_finite false m e /\ e <= 0 /\ Z.pos m <= 2 ^ (- e))) ->
  round (x * h)%flt = Ok ch -> 0 <= ch.
Proof.
  intros Hx Hh. unfold fmul.
  destruct Hx as [->|(p & e & ->)];
    destruct Hh as [(b & ->)|(m & eh & -> & _ & _)]; cbn [SFmul round];
    try (intros [= <-]; lia).
  rewrite binary_round_aux_spec by lia. cbn [xorb].
  pose proof (round_spec_sign false (Z.pos (p * m)) (e + eh) ltac:(lia)) as Hs.
  destruct (round_spec false (Z.pos (p * m)) (e + eh)) as [b|b| |b q e2];
    cbn [round]; try discriminate; intros [= <-]; [lia|].
  subst b. apply round_half_even_nonneg.
Qed.

(** C4, as the code has it: with [n_active >= 0] and a percentile in
    [[0, 1]], [count_high] is never negative; and when moreover
    [n_active <= 2^53], so that it converts to a float without rounding up,
    the call returns and neither count is negative. *)
Theorem counts_nonneg n a h s :
  0 <= n ->
  is_float h = true ->
  fle (float_lit 0 0) h = true ->
  fle h (float_lit 1 0) = true ->
  (forall d, compute_market_cap n a h s = Ok d ->
     exists ch, int_field d "count_high" = Some ch /\ 0 <= ch) /\
  (n <= 2 ^ 53 ->
   exists d ch cr,
     compute_market_cap n a h s = Ok d /\
     int_field d "count_high" = Some ch /\
     int_field d "count_remaining" = Some cr /\
     0 <= ch /\ 0 <= cr).
Proof.
  intros Hn Hf H0 H1.
  pose proof (unit_interval_cases h Hf H0 H1) as Hh.
  split.
  - intros d Hd. apply compute_market_cap_inv in Hd.
    destruct Hd as (x & ch & y & z & Hx & Hr & _ & _ & ->).
    exists ch. split; [reflexivity|].
    apply (fmul_round_nonneg x h ch); try assumption.
    apply (float_of_int_sign n); assumption.
  - intros Hn53.
    assert (Hx : exists x, float_of_int n = Ok x /\
               (x = S754_zero false \/
                exists p e, x = S754_finite false p e /\ le_int (Z.pos p) e n)).
    { destruct (float_of_int_le n ltac:(lia)) as [E|(p & e & E & Hle)];
        eexists; (split; [exact E|]); [left; reflexivity | right; eauto]. }
    destruct Hx as (x & Hx & Hxb).
    destruct (fmul_round_bounds n x h ltac:(lia) Hxb Hh) as (ch & Hr & Hch).
    assert (Hy : exists y, float_of_int ch = Ok y).
    { destruct (float_of_int_le ch ltac:(lia)) as [E|(p & e & E & _)]; eauto. }
    assert (Hz : exists z, float_of_int (n - ch) = Ok z).
    { destruct (float_of_int_le (n - ch) ltac:(lia)) as [E|(p & e & E & _)]; eauto. }
    destruct Hy as (y & Hy). destruct Hz as (z & Hz).
    eexists; exists ch, (n - ch).
    split; [exact (compute_market_cap_intro n a h s x ch y z Hx Hr Hy Hz)|].
    repeat split; try reflexivity; lia.
Qed.

Lemma counts_nonneg_witness :
  (forall d, compute_market_cap 9631 default_avg_salary default_high_percentile
               default_high_salary = Ok d ->
     exists ch, int_field d "count_high" = Some ch /\ 0 <= ch) /\
  (9631 <= 2 ^ 53 ->
   exists d ch cr,
     compute_market_cap 9631 default_avg_salary default_high_percentile
       default_high_salary = Ok d /\
     int_field d "count_high" = Some ch /\
     int_field d "count_remaining" = Some cr /\
     0 <= ch /\ 0 <= cr).
Proof.
  apply (counts_nonneg 9631 default_avg_salary default_high_percentile
           default_high_salary).
  - lia.
  - reflexivity.
  - reflexivity.
  - reflexivity.
Defined.

(** C4 as stated fails beyond 2^53: [n_active = 2^53 + 3] converts to the
    float [2^53 + 4], so at percentile 1.0 [count_high] is [2^53 + 4] and
    [count_remaining] is -1. *)
Lemma count_remaining_negative :
  0 <= 9007199254740995 /\
  is_float (float_lit 1 0) = true /\
  fle (float_lit 0 0) (float_lit 1 0) = true /\
  fle (float_lit 1 0) (float_lit 1 0) = true /\
  exists d,
    compute_market_cap 9007199254740995 (float_lit 48000 0) (float_lit 1 0)
      (float_lit 110000 0) = Ok d /\
    int_field d "count_high" = Some 9007199254740996 /\
    int_field d "count_remaining" = Some (-1).
Proof.
  split; [lia|]. repeat (split; [reflexivity|]).
  eexists. split; [vm_compute; reflexivity|]. split; reflexivity.
Qed.

(** ** When the call returns *)

Lemma binary_round_overflow s q :
  float_int_limit <= Z.pos q ->
  binary_round prec emax s q 0 = S754_infinity s.
Proof.
  intros Hq. unfold binary_round.
  pose proof (shl_align_aligned q) as H.
  destruct (shl_align q 0 (fexp prec emax (Z.pos (digits2_pos q) + 0)))
    as [mz ez].
  destruct H as (Hez & Hmz & _).
  rewrite binary_round_aux_spec by lia.
  apply round_spec_overflow; try lia.
  rewrite Hmz. apply Z.mul_le_mono_nonneg_r; [|exact Hq].
  apply Z.lt_le_incl, pow2_pos; lia.
Qed.

(** An [int] converts to a float exactly when its magnitude is below
    [2^1024 - 2^970]. *)
Lemma float_of_int_ok_iff c :
  (exists y, float_of_int c = Ok y) <-> Z.abs c < float_int_limit.
Proof.
  split; [|apply float_of_int_ok].
  intros [y Hy].
  destruct (Z.lt_ge_cases (Z.abs c) float_int_limit) as [|Hge]; [assumption|].
  exfalso. unfold float_of_int in Hy.
  destruct c as [|q|q]; cbn [binary_normalize Z.abs] in *.
  - vm_compute in Hge. apply Hge. reflexivity.
  - rewrite (binary_round_overflow false q Hge) in Hy. discriminate.
  - rewrite (binary_round_overflow true q Hge) in Hy. discriminate.
Qed.

Lemma float_of_int_raises c e :
  float_of_int c = Raise e -> e = OverflowError.
Proof.
  unfold float_of_int.
  destruct (binary_normalize prec emax c 0 false); congruence.
Qed.

Lemma fmul_finite_bounded x h b q e :
  (x * h)%flt = S754_finite b q e -> Z.pos q < 2 ^ 53 /\ e <= 971.
Proof.
  unfold fmul.
  destruct x as [sx|sx| |sx mx ex]; destruct h as [sh|sh| |sh mh eh];
    cbn [SFmul]; try discriminate.
  rewrite binary_round_aux_spec by lia.
  apply round_spec_mantissa. lia.
Qed.

Lemma round_half_even_limit q e :
  Z.pos q < 2 ^ 53 -> e <= 971 -> round_half_even q e < float_int_limit.
Proof.
  intros Hq He.
  destruct (Z.le_gt_cases 0 e) as [H0|H0].
  - unfold round_half_even. destruct (Z.leb_spec 0 e); [|lia].
    assert (Hp : 2 ^ e <= 2 ^ 971) by (apply Z.pow_le_mono_r; lia).
    assert (Hpp : 0 < 2 ^ e) by (apply pow2_pos; lia).
    assert (HT : (2 ^ 53 - 1) * 2 ^ 971 < float_int_limit)
      by (vm_compute; reflexivity).
    apply Z.le_lt_trans with ((2 ^ 53 - 1) * 2 ^ 971); [|exact HT].
    apply Z.mul_le_mono_nonneg; lia.
  - rewrite round_half_even_eq_rne by exact H0.
    assert (HD : 0 < 2 ^ (- e)) by (apply pow2_pos; lia).
    assert (Hr : rne (Z.pos q) (2 ^ (- e)) <= 2 ^ 53).
    { apply rne_grid; [lia | exact HD | nia]. }
    assert (HT : 2 ^ 53 < float_int_limit) by (vm_compute; reflexivity).
    lia.
Qed.

Lemma round_fmul_limit x h ch :
  round (x * h)%flt = Ok ch -> Z.abs ch < float_int_limit.
Proof.
  destruct (x * h)%flt as [b|b| |b q e] eqn:E; cbn [round]; try discriminate.
  - intros [= <-]. vm_compute. reflexivity.
  - intros [= <-]. apply fmul_finite_bounded in E. destruct E as [Hq He].
    pose proof (round_half_even_limit q e Hq He).
    pose proof (round_half_even_nonneg q e).
    destruct b; lia.
Qed.

Lemma round_ok_iff p : (exists ch, round p = Ok ch) <-> is_finite p = true.
Proof.
  destruct p; cbn; split; intros H; try discriminate; eauto;
    destruct H; discriminate.
Qed.

Lemma round_raises p e :
  round p = Raise e -> e = OverflowError \/ e = ValueError.
Proof. destruct p; cbn; intros [= <-]; auto. Qed.

(** C7, as the code has it: no argument is checked against its domain, and
    the salaries never matter; the call returns exactly when [n_active]
    converts to a float, the product [n_active * high_percentile] is finite
    and [count_remaining] converts to a float, and otherwise it raises
    [OverflowError] or [ValueError]. *)
Theorem compute_returns_iff n a h s :
  ((exists d, compute_market_cap n a h s = Ok d) <->
   (Z.abs n < float_int_limit /\
    exists x ch,
      float_of_int n = Ok x /\
      round (x * h)%flt = Ok ch /\
      Z.abs (n - ch) < float_int_limit)) /\
  (forall e, compute_market_cap n a h s = Raise e ->
     e = OverflowError \/ e = ValueError).
Proof.
  split; [split|].
  - intros [d Hd]. apply compute_market_cap_inv in Hd.
    destruct Hd as (x & ch & y & z & Hx & Hr & _ & Hz & _).
    split; [apply float_of_int_ok_iff; eauto|].
    exists x, ch. repeat split; try assumption.
    apply float_of_int_ok_iff; eauto.
  - intros (_ & x & ch & Hx & Hr & Hz).
    destruct (float_of_int_ok ch (round_fmul_limit x h ch Hr)) as [y Hy].
    destruct (float_of_int_ok (n - ch) Hz) as [z Hz'].
    eexists. exact (compute_market_cap_intro n a h s x ch y z Hx Hr Hy Hz').
  - intros e. unfold compute_market_cap, int_mul_float, int_of_int.
    destruct (float_of_int n) as [x|e1] eqn:Hx; cbn [bind];
      [|intros [= <-]; left; exact (float_of_int_raises _ _ Hx)].
    destruct (round (x * h)%flt) as [ch|e2] eqn:Hr; cbn [bind];
      [|intros [= <-]; exact (round_raises _ _ Hr)].
    destruct (float_of_int ch) as [y|e3] eqn:Hy; cbn [bind];
      [|intros [= <-]; left; exact (float_of_int_raises _ _ Hy)].
    destruct (float_of_int (n - ch)) as [z|e4] eqn:Hz; cbn [bind];
      [discriminate|intros [= <-]; left; exact (float_of_int_raises _ _ Hz)].
Qed.

(** Out of the documented domain on every argument, a result all the same:
    [compute(-5, -1.0, 2.5, -2.0)]. *)
Lemma compute_returns_iff_witness :
  exists d,
    compute_market_cap (-5) (float_lit (-1) 0) (float_lit 25 (-1))
      (float_lit (-2) 0) = Ok d.
Proof.
  apply (proj2 (proj1 (compute_returns_iff (-5) (float_lit (-1) 0)
                         (float_lit 25 (-1)) (float_lit (-2) 0)))).
  split; [vm_compute; reflexivity|].
  eexists; eexists.
  split; [vm_compute; reflexivity|].
  split; [vm_compute; reflexivity|].
  vm_compute; reflexivity.
Defined.

(** C7 as stated fails: a NaN percentile raises [ValueError], a percentile
    of 1e308 (the product overflows to infinity) and an [n_active] of
    [10^400] raise [OverflowError]. *)
Lemma compute_raises :
  compute_market_cap 9631 (float_lit 48000 0) S754_nan (float_lit 110000 0)
    = Raise ValueError /\
  compute_market_cap 10 (float_lit 48000 0) (float_lit 1 308)
    (float_lit 110000 0) = Raise OverflowError /\
  compute_market_cap (10 ^ 400) (float_lit 48000 0) (float_lit 5 (-2))
    (float_lit 110000 0) = Raise OverflowError.
Proof. repeat split; vm_compute; reflexivity. Qed.

(** ** The text report *)

Lemma float_of_int_100 : float_of_int 100 = Ok (float_lit 100 0).
Proof. vm_compute. reflexivity. Qed.

Lemma report_result_dict n a h s ch cr th tr tm :
  report (result_dict n a h s ch cr th tr tm) =
  (top <- int_of_float (h * float_lit 100 0)%flt ;;
   Ok [ Print (report_text n a s top ch th tr tm) ]).
Proof.
  unfold report, result_dict.
  cbv [getitem String.eqb Ascii.eqb Bool.eqb bind value_mul_int
       value_div_float int_of_value].
  rewrite float_of_int_100.
  destruct (int_of_float (h * float_lit 100 0)%flt); reflexivity.
Qed.

Lemma compute_market_cap_result n a h s d :
  compute_market_cap n a h s = Ok d ->
  exists ch th tr, d = result_dict n a h s ch (n - ch) th tr (th + tr)%flt.
Proof.
  intros H. apply compute_market_cap_inv in H.
  destruct H as (x & ch & y & z & _ & _ & _ & _ & ->).
  exists ch, (y * s)%flt, (z * a)%flt. reflexivity.
Qed.


Lemma main_without_path w args :
  Env.parse_args w = Some args ->
  no_path (Namespace.json_out args) ->
  main w =
  lift (result <- compute_market_cap
                    (Namespace.n_active args) (Namespace.avg_salary args)
                    (Namespace.percent_high args)
                    (Namespace.high_salary args) ;;
        report result).
Proof.
  intros Hw [E|E]; unfold main; rewrite Hw, E;
    destruct (compute_market_cap _ _ _ _); reflexivity.
Qed.



(** X1: without a path ([--json-out] absent or empty) a run of [main] that
    succeeds does one thing, printing the report of the result just
    computed: [n_active], [avg_salary], the label
    [int(high_percentile * 100)], [count_high], [high_salary] and the three
    payrolls in millions; no file is opened. *)
Theorem run_without_path_prints_report w args effs :
  Env.parse_args w = Some args ->
  no_path (Namespace.json_out args) ->
  main w = (effs, Ok tt) ->
  exists ch th tr top,
    compute_market_cap
      (Namespace.n_active args) (Namespace.avg_salary args)
      (Namespace.percent_high args) (Namespace.high_salary args)
    = Ok (result_dict (Namespace.n_active args) (Namespace.avg_salary args)
            (Namespace.percent_high args) (Namespace.high_salary args)
            ch (Namespace.n_active args - ch) th tr (th + tr)%flt) /\
    int_of_float (Namespace.percent_high args * float_lit 100 0)%flt
      = Ok top /\
    effs = [ Print (report_text (Namespace.n_active args)
                      (Namespace.avg_salary args) (Namespace.high_salary args)
                      top ch th tr (th + tr)%flt) ].
Proof.
  intros Hw Hp. rewrite (main_without_path w args Hw Hp).
  destruct (compute_market_cap _ _ _ _) as [d|e] eqn:Hc; cbn [bind lift];
    [|discriminate].
  destruct (compute_market_cap_result _ _ _ _ _ Hc) as (ch & th & tr & ->).
  rewrite report_result_dict.
  destruct (int_of_float _) as [top|e] eqn:Ht; cbn [bind lift];
    [|discriminate].
  intros [= <-]. exists ch, th, tr, top. repeat split.
Qed.



Lemma run_without_path_prints_report_witness :
  exists effs ch th tr top,
    main (env_of Namespace.defaults) = (effs, Ok tt) /\
    compute_market_cap 9631 default_avg_salary default_high_percentile
      default_high_salary
    = Ok (result_dict 9631 default_avg_salary default_high_percentile
            default_high_salary ch (9631 - ch) th tr (th + tr)%flt) /\
    int_of_float (default_high_percentile * float_lit 100 0)%flt = Ok top /\
    effs = [ Print (report_text 9631 default_avg_salary default_high_salary
                      top ch th tr (th + tr)%flt) ].
Proof.
  eexists.
  assert (H : main (env_of Namespace.defaults) = (_, Ok tt))
    by (vm_compute; reflexivity).
  destruct (run_without_path_prints_report (env_of Namespace.defaults)
              Namespace.defaults _ eq_refl (or_introl eq_refl) H)
    as (ch & th & tr & top & H').
  exists ch, th, tr, top. split; [exact H | exact H'].
Defined.






Lemma compute_returns_in_unit_range n a h s :
  0 <= n <= 2 ^ 53 ->
  is_float h = true ->
  fle (float_lit 0 0) h = true ->
  fle h (float_lit 1 0) = true ->
  exists ch th tr,
    compute_market_cap n a h s =
      Ok (result_dict n a h s ch (n - ch) th tr (th + tr)%flt) /\
    0 <= ch <= n.
Proof.
  intros Hn Hf H0 H1.
  pose proof (unit_interval_cases h Hf H0 H1) as Hh.
  assert (Hx : exists x, float_of_int n = Ok x /\
             (x = S754_zero false \/
              exists p e, x = S754_finite false p e /\ le_int (Z.pos p) e n)).
  { destruct (float_of_int_le n ltac:(lia)) as [E|(p & e & E & Hle)];
      eexists; (split; [exact E|]); [left; reflexivity | right; eauto]. }
  destruct Hx as (x & Hx & Hxb).
  destruct (fmul_round_bounds n x h ltac:(lia) Hxb Hh) as (ch & Hr & Hch).
  destruct (float_of_int_le ch ltac:(lia)) as [Hy|(p & e & Hy & _)];
    destruct (float_of_int_le (n - ch) ltac:(lia)) as [Hz|(p' & e' & Hz & _)];
    eexists ch, _, _;
    (split; [exact (compute_market_cap_intro n a h s _ ch _ _ Hx Hr Hy Hz) | exact Hch]).
Qed.



(** ** Percentile zero *)

Lemma binary_round_sign s q e :
  match binary_round prec emax s q e with
  | S754_zero b | S754_infinity b | S754_finite b _ _ => b = s
  | S754_nan => False
  end.
Proof.
  unfold binary_round.
  destruct (shl_align q e (fexp prec emax (Z.pos (digits2_pos q) + e))) as [mz ez].
  rewrite binary_round_aux_spec by lia.
  apply round_spec_sign. lia.
Qed.

Lemma float_of_int_finite n x : float_of_int n = Ok x -> is_finite x = true.
Proof.
  unfold float_of_int. destruct n as [|q|q]; cbn [binary_normalize].
  - intros [= <-]. reflexivity.
  - pose proof (binary_round_sign false q 0) as Hs.
    destruct (binary_round prec emax false q 0); try discriminate;
      try contradiction; intros [= <-]; reflexivity.
  - pose proof (binary_round_sign true q 0) as Hs.
    destruct (binary_round prec emax true q 0); try discriminate;
      try contradiction; intros [= <-]; reflexivity.
Qed.

Lemma fmul_zero_r x b :
  is_finite x = true -> exists b', (x * S754_zero b)%flt = S754_zero b'.
Proof.
  destruct x as [sx|sx| |sx mx ex]; try discriminate; intros _;
    unfold fmul; cbn [SFmul]; eauto.
Qed.

Lemma fmul_zero_l b y :
  is_finite y = true -> exists b', (S754_zero b * y)%flt = S754_zero b'.
Proof.
  destruct y as [sy|sy| |sy my ey]; try discriminate; intros _;
    unfold fmul; cbn [SFmul]; eauto.
Qed.

Lemma fadd_zero_l b y :
  (S754_zero b + y)%flt = y \/
  ((S754_zero b + y)%flt = S754_zero false /\ exists b', y = S754_zero b').
Proof.
  unfold fadd. destruct y as [sy|sy| |sy my ey]; cbn [SFadd]; auto.
  destruct b, sy; cbn; eauto.
Qed.

(** X5: at percentile zero (either zero), whatever [n_active] converts to
    a float, nobody is a high earner: [count_high = 0] and
    [count_remaining = n_active]; with a finite [high_salary] the high
    payroll is zero and the total is the remaining payroll. *)
Theorem percentile_zero n a s b :
  Z.abs n < float_int_limit ->
  exists d tr,
    compute_market_cap n a (S754_zero b) s = Ok d /\
    int_field d "count_high" = Some 0 /\
    int_field d "count_remaining" = Some n /\
    float_field d "total_remaining_payroll" = Some tr /\
    (is_finite s = true ->
     exists th tm,
       float_field d "total_high_payroll" = Some th /\
       float_field d "total_market_cap" = Some tm /\
       exact_int th = Some 0 /\
       (tm = tr \/ (tm = S754_zero false /\ exact_int tr = Some 0))).
Proof.
  intros Hn.
  destruct (float_of_int_ok n Hn) as [x Hx].
  pose proof (float_of_int_finite n x Hx) as Hfx.
  destruct (fmul_zero_r x b Hfx) as [b' Hp].
  assert (Hr : round (x * S754_zero b)%flt = Ok 0) by (rewrite Hp; reflexivity).
  assert (Hy : float_of_int 0 = Ok (S754_zero false)) by reflexivity.
  assert (Hz : float_of_int (n - 0) = Ok x) by (rewrite Z.sub_0_r; exact Hx).
  pose proof (compute_market_cap_intro n a (S754_zero b) s x 0
                (S754_zero false) x Hx Hr Hy Hz) as Hc.
  eexists; exists (x * a)%flt. split; [exact Hc|].
  split; [reflexivity|]. split; [cbn; f_equal; lia|].
  split; [reflexivity|].
  intros Hs. destruct (fmul_zero_l false s Hs) as [b2 Hth].
  exists (S754_zero false * s)%flt, (S754_zero false * s + x * a)%flt.
  split; [reflexivity|]. split; [reflexivity|].
  rewrite Hth. split; [reflexivity|].
  destruct (fadd_zero_l b2 (x * a)%flt) as [E|[E [b3 E']]].
  - left; exact E.
  - right. split; [exact E|]. rewrite E'. reflexivity.
Qed.

Lemma percentile_zero_witness :
  exists d tr,
    compute_market_cap 100 (float_lit 50000 0) (S754_zero false)
      (float_lit 110000 0) = Ok d /\
    int_field d "count_high" = Some 0 /\
    int_field d "count_remaining" = Some 100 /\
    float_field d "total_remaining_payroll" = Some tr /\
    (is_finite (float_lit 110000 0) = true ->
     exists th tm,
       float_field d "total_high_payroll" = Some th /\
       float_field d "total_market_cap" = Some tm /\
       exact_int th = Some 0 /\
       (tm = tr \/ (tm = S754_zero false /\ exact_int tr = Some 0))).
Proof.
  apply (percentile_zero 100 (float_lit 50000 0) (float_lit 110000 0) false).
  vm_compute; reflexivity.
Defined.

(** ** Integers held exactly *)

Lemma eq_int_nonneg_exp m e V : 0 <= e -> eq_int m e V <-> m * 2 ^ e = V.
Proof.
  intros He. unfold eq_int.
  rewrite (Z.max_l e 0), (Z.max_r (- e) 0) by lia.
  rewrite Z.pow_0_r. lia.
Qed.

Lemma eq_int_nonpos_exp m e V : e <= 0 -> eq_int m e V <-> m = V * 2 ^ (- e).
Proof.
  intros He. unfold eq_int.
  rewrite (Z.max_r e 0), (Z.max_l (- e) 0) by lia.
  rewrite Z.pow_0_r. lia.
Qed.

Lemma eq_int_le m e V : eq_int m e V -> le_int m e V.
Proof. unfold eq_int, le_int. lia. Qed.

Lemma rne_exact m d : 0 < d -> m mod d = 0 -> rne m d = m / d.
Proof.
  intros Hd Hm. unfold rne. rewrite Hm.
  destruct (Z.compare_spec (2 * 0) d); lia.
Qed.

(** Dropping the bits that the format cannot hold loses nothing of an
    integer below [2^53]. *)
Lemma shift_exact m e V :
  0 < m -> 0 < V < 2 ^ 53 -> eq_int m e V ->
  let k := fexp prec emax (Zdigits2 m + e) - e in
  shift_round m e k = shift_trunc m e k /\
  0 < fst (shift_trunc m e k) /\
  eq_int (fst (shift_trunc m e k)) (snd (shift_trunc m e k)) V.
Proof.
  intros Hm HV Heq k.
  pose proof (Zdigits2_bounds m Hm) as Hd.
  pose proof (Zdigits2_pos m Hm) as Hd0.
  subst k. rewrite fexp_eq.
  set (d := Zdigits2 m) in *. clearbody d.
  destruct (Z.max (d + e - 53) (-1074) - e) as [|k|k] eqn:Hk;
    cbn [shift_round shift_trunc fst snd]; try (repeat split; assumption).
  assert (Hk' : Z.max (d + e - 53) (-1074) = e + Z.pos k) by lia. clear Hk.
  assert (Hpk : 0 < 2 ^ Z.pos k) by (apply pow2_pos; lia).
  assert (Hde : d + e <= 53).
  { destruct (Z.le_gt_cases (d + e) 53) as [|Hgt]; [assumption|exfalso].
    destruct (Z.le_gt_cases 0 e) as [He|He].
    - rewrite eq_int_nonneg_exp in Heq by lia.
      assert (H1 : 2 ^ 53 <= 2 ^ (d - 1 + e)) by (apply Z.pow_le_mono_r; lia).
      rewrite Z.pow_add_r in H1 by lia.
      assert (0 < 2 ^ e) by (apply pow2_pos; lia). nia.
    - rewrite eq_int_nonpos_exp in Heq by lia.
      assert (2 ^ (53 + - e) <= 2 ^ (d - 1)) by (apply Z.pow_le_mono_r; lia).
      rewrite Z.pow_add_r in * by lia.
      assert (0 < 2 ^ (- e)) by (apply pow2_pos; lia). nia. }
  assert (He : e < 0) by lia.
  rewrite eq_int_nonpos_exp in Heq by lia.
  assert (Hsplit : 2 ^ (- e) = 2 ^ (- (e + Z.pos k)) * 2 ^ Z.pos k).
  { rewrite <- Z.pow_add_r by lia. f_equal; lia. }
  assert (HC : 0 < 2 ^ (- (e + Z.pos k))) by (apply pow2_pos; lia).
  assert (Hm' : m = V * 2 ^ (- (e + Z.pos k)) * 2 ^ Z.pos k).
  { rewrite Heq, Hsplit. ring. }
  assert (Hdiv : m / 2 ^ Z.pos k = V * 2 ^ (- (e + Z.pos k))).
  { rewrite Hm'. apply Z.div_mul. lia. }
  assert (Hmod : m mod 2 ^ Z.pos k = 0).
  { rewrite Hm'. apply Z.mod_mul. lia. }
  rewrite (rne_exact m (2 ^ Z.pos k) Hpk Hmod).
  split; [reflexivity|]. rewrite Hdiv.
  split; [nia|]. apply eq_int_nonpos_exp; [lia | reflexivity].
Qed.

Lemma round_spec_exact s m e V :
  0 < m -> 0 < V < 2 ^ 53 -> eq_int m e V ->
  exists p e2, round_spec s m e = S754_finite s p e2 /\ eq_int (Z.pos p) e2 V.
Proof.
  intros Hm HV Heq. unfold round_spec.
  pose proof (shift_exact m e V Hm HV Heq) as (H1 & H1p & H1e). rewrite H1.
  destruct (shift_trunc m e (fexp prec emax (Zdigits2 m + e) - e)) as [m1 e1].
  cbn [fst snd] in *.
  pose proof (shift_exact m1 e1 V H1p HV H1e) as (_ & H2p & H2e).
  destruct (shift_trunc m1 e1 (fexp prec emax (Zdigits2 m1 + e1) - e1))
    as [m2 e2].
  cbn [fst snd] in *.
  destruct m2 as [|p|p]; try lia.
  exists p, e2.
  destruct (Z.leb_spec e2 (emax - prec)) as [_|Hbig]; [split; [reflexivity|exact H2e]|].
  exfalso. change (emax - prec) with 971 in Hbig.
  rewrite eq_int_nonneg_exp in H2e by lia.
  assert (H54 : 2 ^ 54 <= 2 ^ e2) by (apply Z.pow_le_mono_r; lia).
  assert (2 ^ 54 = 2 * 2 ^ 53) by reflexivity. nia.
Qed.

Lemma exact_int_of_eq_int s p e V :
  eq_int (Z.pos p) e V ->
  exact_int (S754_finite s p e) = Some (if s then - V else V).
Proof.
  intros Heq. unfold exact_int.
  destruct (Z.leb_spec 0 e) as [He|He].
  - rewrite eq_int_nonneg_exp in Heq by lia.
    destruct s; f_equal; [rewrite <- Heq|exact Heq].
    rewrite <- Pos2Z.opp_pos. ring.
  - rewrite eq_int_nonpos_exp in Heq by lia.
    assert (HD : 0 < 2 ^ (- e)) by (apply pow2_pos; lia).
    assert (Hz : (if s then Z.neg p else Z.pos p) =
                 (if s then - V else V) * 2 ^ (- e)).
    { destruct s; [rewrite <- Pos2Z.opp_pos, Heq; ring | exact Heq]. }
    rewrite Hz, Z.mod_mul by lia. cbn [Z.eqb].
    rewrite Z.div_mul by lia. reflexivity.
Qed.

Lemma eq_int_of_exact_int s p e W :
  exact_int (S754_finite s p e) = Some W ->
  eq_int (Z.pos p) e (Z.abs W) /\ 0 < Z.abs W /\
  W = (if s then - Z.abs W else Z.abs W).
Proof.
  unfold exact_int.
  set (z := if s then Z.neg p else Z.pos p).
  assert (Hz : z = if s then - Z.pos p else Z.pos p)
    by (destruct s; reflexivity).
  clearbody z.
  destruct (Z.leb_spec 0 e) as [He|He].
  - intros [= <-].
    assert (0 < 2 ^ e) by (apply pow2_pos; lia).
    rewrite eq_int_nonneg_exp by lia.
    set (w := z * 2 ^ e). assert (Hw : w = z * 2 ^ e) by reflexivity.
    clearbody w.
    destruct s.
    + assert (w < 0) by nia. rewrite Z.abs_neq by lia. repeat split; nia.
    + assert (0 < w) by nia. rewrite Z.abs_eq by lia. repeat split; nia.
  - assert (HD : 0 < 2 ^ (- e)) by (apply pow2_pos; lia).
    destruct (Z.eqb_spec (z mod 2 ^ (- e)) 0) as [Hm|]; [|discriminate].
    intros [= <-].
    pose proof (Z.div_mod z (2 ^ (- e)) ltac:(lia)) as Hdm.
    rewrite Hm, Z.add_0_r in Hdm.
    set (q := z / 2 ^ (- e)) in *. clearbody q.
    rewrite eq_int_nonpos_exp by lia.
    destruct s.
    + assert (q < 0) by nia. rewrite Z.abs_neq by lia. repeat split; nia.
    + assert (0 < q) by nia. rewrite Z.abs_eq by lia. repeat split; nia.
Qed.

Lemma round_exact f V : exact_int f = Some V -> round f = Ok V.
Proof.
  destruct f as [b|b| |s p e]; try discriminate.
  - cbn. congruence.
  - intros H. destruct (eq_int_of_exact_int s p e V H) as (Heq & Hpos & HV).
    cbn [round]. f_equal.
    assert (Hr : round_half_even p e = Z.abs V).
    { destruct (Z.le_gt_cases 0 e) as [He|He].
      - rewrite eq_int_nonneg_exp in Heq by lia.
        unfold round_half_even. destruct (Z.leb_spec 0 e); [exact Heq | lia].
      - rewrite eq_int_nonpos_exp in Heq by lia.
        assert (HD : 0 < 2 ^ (- e)) by (apply pow2_pos; lia).
        rewrite round_half_even_eq_rne by exact He.
        rewrite rne_exact; [|exact HD|rewrite Heq; apply Z.mod_mul; lia].
        rewrite Heq. apply Z.div_mul. lia. }
    rewrite Hr. symmetry. exact HV.
Qed.

Lemma eq_int_shl m e V d :
  0 <= d -> eq_int m e V -> eq_int (m * 2 ^ d) (e - d) V.
Proof.
  intros Hd Heq.
  assert (HD : 0 < 2 ^ d) by (apply pow2_pos; lia).
  destruct (Z.le_gt_cases 0 (e - d)) as [H1|H1].
  - rewrite eq_int_nonneg_exp in Heq by lia.
    rewrite eq_int_nonneg_exp by lia.
    rewrite <- Heq, <- Z.mul_assoc, <- Z.pow_add_r by lia.
    do 2 f_equal. lia.
  - rewrite eq_int_nonpos_exp by lia.
    destruct (Z.le_gt_cases 0 e) as [He|He].
    + rewrite eq_int_nonneg_exp in Heq by lia.
      rewrite <- Heq, <- Z.mul_assoc, <- Z.pow_add_r by lia.
      do 2 f_equal. lia.
    + rewrite eq_int_nonpos_exp in Heq by lia.
      rewrite Heq, <- Z.mul_assoc, <- Z.pow_add_r by lia.
      do 2 f_equal. lia.
Qed.

Lemma shl_align_value m e e' :
  Z.pos (fst (shl_align m e e')) =
    Z.pos m * 2 ^ (e - snd (shl_align m e e')) /\
  0 <= e - snd (shl_align m e e') /\
  snd (shl_align m e e') = Z.min e e'.
Proof.
  unfold shl_align. destruct (e' - e) as [|d|d] eqn:E; cbn [fst snd].
  - rewrite Z.sub_diag. change (2 ^ 0) with 1. lia.
  - rewrite Z.sub_diag. change (2 ^ 0) with 1. lia.
  - rewrite iter_xO. replace (e - e') with (Z.pos d) by lia. lia.
Qed.

Lemma shl_align_eq_int m e e' V :
  eq_int (Z.pos m) e V ->
  eq_int (Z.pos (fst (shl_align m e e'))) (snd (shl_align m e e')) V.
Proof.
  intros Heq. destruct (shl_align_value m e e') as (Hm & Hd & _).
  rewrite Hm.
  replace (snd (shl_align m e e')) with (e - (e - snd (shl_align m e e')))
    at 2 by lia.
  apply eq_int_shl; assumption.
Qed.

Lemma binary_round_exact s q e V :
  0 < V < 2 ^ 53 -> eq_int (Z.pos q) e V ->
  exists p e2,
    binary_round prec emax s q e = S754_finite s p e2 /\
    eq_int (Z.pos p) e2 V.
Proof.
  intros HV Heq. unfold binary_round.
  pose proof (shl_align_eq_int q e (fexp prec emax (Z.pos (digits2_pos q) + e))
                V Heq) as Hs.
  destruct (shl_align q e (fexp prec emax (Z.pos (digits2_pos q) + e)))
    as [mz ez].
  cbn [fst snd] in Hs.
  rewrite binary_round_aux_spec by lia.
  apply round_spec_exact; [lia | exact HV | exact Hs].
Qed.

(** An [int] of magnitude below [2^53] converts to the float equal to
    it. *)
Lemma float_of_int_exact n :
  Z.abs n < 2 ^ 53 ->
  exists x, float_of_int n = Ok x /\ exact_int x = Some n.
Proof.
  intros Hn. unfold float_of_int.
  destruct n as [|q|q]; cbn [binary_normalize].
  - eexists; split; reflexivity.
  - destruct (binary_round_exact false q 0 (Z.pos q)) as (p & e2 & -> & Heq).
    + cbn [Z.abs] in Hn. lia.
    + apply eq_int_nonneg_exp; [lia|]. change (2 ^ 0) with 1. lia.
    + eexists; split; [reflexivity|].
      apply (exact_int_of_eq_int false). exact Heq.
  - destruct (binary_round_exact true q 0 (Z.pos q)) as (p & e2 & -> & Heq).
    + cbn [Z.abs] in Hn. lia.
    + apply eq_int_nonneg_exp; [lia|]. change (2 ^ 0) with 1. lia.
    + eexists; split; [reflexivity|].
      rewrite (exact_int_of_eq_int true p e2 (Z.pos q) Heq).
      reflexivity.
Qed.

Lemma eq_int_mul_mixed mx ex X my ey Y :
  0 <= ex -> ey <= 0 ->
  eq_int mx ex X -> eq_int my ey Y -> eq_int (mx * my) (ex + ey) (X * Y).
Proof.
  intros Hex Hey HX HY.
  rewrite eq_int_nonneg_exp in HX by lia.
  rewrite eq_int_nonpos_exp in HY by lia.
  destruct (Z.le_gt_cases 0 (ex + ey)) as [H|H].
  - rewrite eq_int_nonneg_exp by lia.
    assert (Hs : 2 ^ ex = 2 ^ (- ey) * 2 ^ (ex + ey)).
    { rewrite <- Z.pow_add_r by lia. f_equal; lia. }
    rewrite <- HX, HY, Hs. ring.
  - rewrite eq_int_nonpos_exp by lia.
    assert (Hs : 2 ^ (- ey) = 2 ^ ex * 2 ^ (- (ex + ey))).
    { rewrite <- Z.pow_add_r by lia. f_equal; lia. }
    rewrite <- HX, HY, Hs. ring.
Qed.

Lemma eq_int_mul mx ex X my ey Y :
  eq_int mx ex X -> eq_int my ey Y -> eq_int (mx * my) (ex + ey) (X * Y).
Proof.
  intros HX HY.
  destruct (Z.le_gt_cases 0 ex) as [Hex|Hex];
    destruct (Z.le_gt_cases 0 ey) as [Hey|Hey].
  - rewrite eq_int_nonneg_exp in * by lia.
    rewrite Z.pow_add_r by lia. rewrite <- HX, <- HY. ring.
  - apply eq_int_mul_mixed; (lia || assumption).
  - rewrite (Z.mul_comm mx), (Z.add_comm ex), (Z.mul_comm X).
    apply eq_int_mul_mixed; (lia || assumption).
  - rewrite eq_int_nonpos_exp in * by lia.
    replace (- (ex + ey)) with (- ex + - ey) by lia.
    rewrite Z.pow_add_r by lia. rewrite HX, HY. ring.
Qed.

Lemma eq_int_add a b e X Y :
  eq_int a e X -> eq_int b e Y -> eq_int (a + b) e (X + Y).
Proof. unfold eq_int. intros HX HY. rewrite !Z.mul_add_distr_r. lia. Qed.

Lemma exact_int_finite f V : exact_int f = Some V -> is_finite f = true.
Proof. destruct f; cbn; (discriminate || reflexivity). Qed.

(** A float product of two integers whose exact product is below [2^53]
    in magnitude is that product. *)
Lemma fmul_exact x y X Y :
  exact_int x = Some X -> exact_int y = Some Y ->
  Z.abs (X * Y) < 2 ^ 53 ->
  exact_int (x * y)%flt = Some (X * Y).
Proof.
  intros HX HY Hb. unfold fmul.
  destruct x as [sx|sx| |sx mx ex]; try discriminate;
    destruct y as [sy|sy| |sy my ey]; try discriminate; cbn [SFmul].
  - cbn in HX. injection HX as <-. reflexivity.
  - cbn in HX. injection HX as <-. reflexivity.
  - cbn in HY. injection HY as <-. cbn. f_equal. ring.
  - destruct (eq_int_of_exact_int _ _ _ _ HX) as (EX & PX & SX).
    destruct (eq_int_of_exact_int _ _ _ _ HY) as (EY & PY & SY).
    rewrite binary_round_aux_spec by lia.
    assert (HV : 0 < Z.abs X * Z.abs Y < 2 ^ 53).
    { rewrite <- Z.abs_mul. split; [|exact Hb]. rewrite Z.abs_mul. nia. }
    destruct (round_spec_exact (xorb sx sy) (Z.pos (mx * my)) (ex + ey)
                (Z.abs X * Z.abs Y) ltac:(lia) HV) as (p & e2 & -> & Heq).
    { rewrite Pos2Z.inj_mul. apply eq_int_mul; assumption. }
    rewrite (exact_int_of_eq_int _ _ _ _ Heq). f_equal.
    rewrite SX, SY at 3. clear - PX PY.
    destruct sx, sy; cbn [xorb]; ring.
Qed.

(** A float sum of two non-negative integers whose exact sum is below
    [2^53] is that sum. *)
Lemma fadd_exact x y X Y :
  exact_int x = Some X -> exact_int y = Some Y ->
  0 <= X -> 0 <= Y -> X + Y < 2 ^ 53 ->
  exact_int (x + y)%flt = Some (X + Y).
Proof.
  intros HX HY PX PY Hb. unfold fadd.
  destruct x as [sx|sx| |sx mx ex]; try discriminate;
    destruct y as [sy|sy| |sy my ey]; try discriminate; cbn [SFadd].
  - cbn in HX, HY. injection HX as <-. injection HY as <-.
    destruct sx, sy; reflexivity.
  - cbn in HX. injection HX as <-. exact HY.
  - cbn in HY. injection HY as <-. rewrite Z.add_0_r. exact HX.
  - destruct (eq_int_of_exact_int _ _ _ _ HX) as (EX & QX & SX).
    destruct (eq_int_of_exact_int _ _ _ _ HY) as (EY & QY & SY).
    assert (sx = false) by (destruct sx; [lia | reflexivity]).
    assert (sy = false) by (destruct sy; [lia | reflexivity]).
    subst sx sy. cbn [cond_Zopp].
    rewrite Z.abs_eq in EX, EY by lia.
    pose proof (shl_align_eq_int mx ex (Z.min ex ey) X EX) as AX.
    pose proof (shl_align_eq_int my ey (Z.min ex ey) Y EY) as AY.
    destruct (shl_align_value mx ex (Z.min ex ey)) as (_ & _ & MX).
    destruct (shl_align_value my ey (Z.min ex ey)) as (_ & _ & MY).
    rewrite MX in AX. rewrite MY in AY.
    replace (Z.min ex (Z.min ex ey)) with (Z.min ex ey) in AX by lia.
    replace (Z.min ey (Z.min ex ey)) with (Z.min ex ey) in AY by lia.
    pose proof (eq_int_add _ _ _ _ _ AX AY) as AS.
    rewrite <- Pos2Z.inj_add in AS.
    rewrite <- Pos2Z.inj_add. cbn [binary_normalize].
    destruct (binary_round_exact false _ _ (X + Y) ltac:(lia) AS)
      as (p & e2 & -> & Heq).
    exact (exact_int_of_eq_int false p e2 (X + Y) Heq).
Qed.

Lemma fadd_zero_r x b :
  (x + S754_zero b)%flt = x \/
  ((x + S754_zero b)%flt = S754_zero false /\ exists b', x = S754_zero b').
Proof.
  unfold fadd. destruct x as [sx|sx| |sx mx ex]; cbn [SFadd]; auto.
  destruct sx, b; cbn; eauto.
Qed.

Lemma exact_int_one : exact_int (float_lit 1 0) = Some 1.
Proof. vm_compute. reflexivity. Qed.

(** ** Percentile one and exact payrolls *)

(** X6: at percentile 1.0, for [|n_active| < 2^53], everybody is a high
    earner: [count_high = n_active] and [count_remaining = 0]; with a finite
    [avg_salary] the remaining payroll is zero and the total is the high
    payroll. *)
Theorem percentile_one n a s :
  Z.abs n < 2 ^ 53 ->
  exists d th,
    compute_market_cap n a (float_lit 1 0) s = Ok d /\
    int_field d "count_high" = Some n /\
    int_field d "count_remaining" = Some 0 /\
    float_field d "total_high_payroll" = Some th /\
    (is_finite a = true ->
     exists tr tm,
       float_field d "total_remaining_payroll" = Some tr /\
       float_field d "total_market_cap" = Some tm /\
       exact_int tr = Some 0 /\
       (tm = th \/ (tm = S754_zero false /\ exact_int th = Some 0))).
Proof.
  intros Hn.
  destruct (float_of_int_exact n Hn) as (x & Hx & Ex).
  assert (Hp : exact_int (x * float_lit 1 0)%flt = Some (n * 1)).
  { apply fmul_exact; [exact Ex | exact exact_int_one |].
    rewrite Z.mul_1_r. exact Hn. }
  rewrite Z.mul_1_r in Hp.
  pose proof (round_exact _ _ Hp) as Hr.
  assert (Hz : float_of_int (n - n) = Ok (S754_zero false))
    by (rewrite Z.sub_diag; reflexivity).
  pose proof (compute_market_cap_intro n a (float_lit 1 0) s x n x
                (S754_zero false) Hx Hr Hx Hz) as Hc.
  eexists; exists (x * s)%flt. split; [exact Hc|].
  split; [reflexivity|]. split; [cbn; f_equal; lia|].
  split; [reflexivity|].
  intros Ha. destruct (fmul_zero_l false a Ha) as [b2 Htr].
  exists (S754_zero false * a)%flt, (x * s + S754_zero false * a)%flt.
  split; [reflexivity|]. split; [reflexivity|].
  rewrite Htr. split; [reflexivity|].
  destruct (fadd_zero_r (x * s)%flt b2) as [E|[E [b3 E']]].
  - left; exact E.
  - right. split; [exact E|]. rewrite E'. reflexivity.
Qed.

Lemma percentile_one_witness :
  exists d th,
    compute_market_cap 100 (float_lit 50000 0) (float_lit 1 0)
      (float_lit 110000 0) = Ok d /\
    int_field d "count_high" = Some 100 /\
    int_field d "count_remaining" = Some 0 /\
    float_field d "total_high_payroll" = Some th /\
    (is_finite (float_lit 50000 0) = true ->
     exists tr tm,
       float_field d "total_remaining_payroll" = Some tr /\
       float_field d "total_market_cap" = Some tm /\
       exact_int tr = Some 0 /\
       (tm = th \/ (tm = S754_zero false /\ exact_int th = Some 0))).
Proof.
  apply (percentile_one 100 (float_lit 50000 0) (float_lit 110000 0)).
  vm_compute; reflexivity.
Defined.

(** X7: with [0 <= n_active < 2^53], a percentile in [[0, 1]] and salaries
    that are non-negative integers [A], [S] with [n_active * A] and
    [n_active * S] below [2^53], no float operation rounds: the payrolls are
    exactly [count_high * S], [count_remaining * A] and their sum. *)
Theorem payrolls_exact n a h s A S :
  0 <= n < 2 ^ 53 ->
  is_float h = true ->
  fle (float_lit 0 0) h = true ->
  fle h (float_lit 1 0) = true ->
  exact_int a = Some A -> exact_int s = Some S ->
  0 <= A -> 0 <= S ->
  n * A < 2 ^ 53 -> n * S < 2 ^ 53 ->
  exists d ch cr,
    compute_market_cap n a h s = Ok d /\
    int_field d "count_high" = Some ch /\
    int_field d "count_remaining" = Some cr /\
    float_field_int d "total_high_payroll" = Some (ch * S) /\
    float_field_int d "total_remaining_payroll" = Some (cr * A) /\
    float_field_int d "total_market_cap" = Some (ch * S + cr * A).
Proof.
  intros Hn Hf H0 H1 Ea Es HA HS HnA HnS.
  pose proof (unit_interval_cases h Hf H0 H1) as Hh.
  assert (Hx : exists x, float_of_int n = Ok x /\
             (x = S754_zero false \/
              exists p e, x = S754_finite false p e /\ le_int (Z.pos p) e n)).
  { destruct (float_of_int_le n ltac:(lia)) as [E|(p & e & E & Hle)];
      eexists; (split; [exact E|]); [left; reflexivity | right; eauto]. }
  destruct Hx as (x & Hx & Hxb).
  destruct (fmul_round_bounds n x h ltac:(lia) Hxb Hh) as (ch & Hr & Hch).
  destruct (float_of_int_exact ch ltac:(lia)) as (y & Hy & Ey).
  destruct (float_of_int_exact (n - ch) ltac:(lia)) as (z & Hz & Ez).
  assert (Eth : exact_int (y * s)%flt = Some (ch * S)).
  { apply fmul_exact; [exact Ey | exact Es |]. rewrite Z.abs_eq; nia. }
  assert (Etr : exact_int (z * a)%flt = Some ((n - ch) * A)).
  { apply fmul_exact; [exact Ez | exact Ea |]. rewrite Z.abs_eq; nia. }
  assert (Etm : exact_int (y * s + z * a)%flt = Some (ch * S + (n - ch) * A)).
  { apply fadd_exact; [exact Eth | exact Etr | nia | nia |].
    destruct (Z.le_ge_cases A S); nia. }
  eexists; exists ch, (n - ch).
  split; [exact (compute_market_cap_intro n a h s x ch y z Hx Hr Hy Hz)|].
  split; [reflexivity|]. split; [reflexivity|].
  split; [exact Eth|]. split; [exact Etr | exact Etm].
Qed.

Lemma payrolls_exact_witness :
  exists d ch cr,
    compute_market_cap 9631 default_avg_salary default_high_percentile
      default_high_salary = Ok d /\
    int_field d "count_high" = Some ch /\
    int_field d "count_remaining" = Some cr /\
    float_field_int d "total_high_payroll" = Some (ch * 110000) /\
    float_field_int d "total_remaining_payroll" = Some (cr * 48000) /\
    float_field_int d "total_market_cap" = Some (ch * 110000 + cr * 48000).
Proof.
  apply (payrolls_exact 9631 default_avg_salary default_high_percentile
           default_high_salary 48000 110000).
  - split; [lia | vm_compute; reflexivity].
  - vm_compute; reflexivity.
  - vm_compute; reflexivity.
  - vm_compute; reflexivity.
  - vm_compute; reflexivity.
  - vm_compute; reflexivity.
  - lia.
  - lia.
  - vm_compute; reflexivity.
  - vm_compute; reflexivity.
Defined.

(** ** The documented domain *)

Lemma nonneg_finite_cases a :
  is_finite a = true -> fle (float_lit 0 0) a = true ->
  (exists b, a = S754_zero b) \/ exists m e, a = S754_finite false m e.
Proof.
  change (float_lit 0 0) with (S754_zero false). unfold fle, SFleb.
  destruct a as [b|b| |b m e]; try discriminate; intros _; cbn [SFcompare].
  - left; eauto.
  - destruct b; [discriminate|]. right; eauto.
Qed.

Lemma fmul_nonneg y a :
  (y = S754_zero false \/ exists p e, y = S754_finite false p e) ->
  ((exists b, a = S754_zero b) \/ exists m e, a = S754_finite false m e) ->
  nonneg_float (y * a)%flt.
Proof.
  intros Hy Ha. unfold fmul, nonneg_float.
  destruct Hy as [->|(p & e & ->)]; destruct Ha as [(b & ->)|(m & e' & ->)];
    cbn [SFmul]; try (left; eauto; fail).
  rewrite binary_round_aux_spec by lia. cbn [xorb].
  pose proof (round_spec_sign false (Z.pos (p * m)) (e + e') ltac:(lia)) as Hs.
  destruct (round_spec false (Z.pos (p * m)) (e + e')) as [b|b| |b q e2];
    try contradiction; subst b; eauto.
Qed.

Lemma fadd_nonneg x y :
  nonneg_float x -> nonneg_float y -> nonneg_float (x + y)%flt.
Proof.
  unfold nonneg_float, fadd.
  intros [(bx & ->)|[->|(mx & ex & ->)]] [(b & ->)|[->|(my & ey & ->)]];
    cbn [SFadd]; eauto.
  - destruct bx, b; cbn; eauto.
  - cbn [cond_Zopp]. rewrite <- Pos2Z.inj_add. cbn [binary_normalize].
    pose proof (binary_round_sign false
                  (fst (shl_align mx ex (Z.min ex ey)) +
                   fst (shl_align my ey (Z.min ex ey))) (Z.min ex ey)) as Hs.
    destruct (binary_round prec emax false _ (Z.min ex ey)) as [b|b| |b q e2];
      try contradiction; subst b; eauto.
Qed.

Lemma nonneg_float_order f :
  nonneg_float f -> is_nan f = false /\ fle (float_lit 0 0) f = true.
Proof.
  change (float_lit 0 0) with (S754_zero false).
  intros [(b & ->)|[->|(m & e & ->)]]; split; reflexivity.
Qed.

(** X8: on the documented domain ([0 <= n_active <= 2^53], a percentile in
    [[0, 1]], finite non-negative salaries) the call returns, the two
    payrolls and the total are non-negative, the total is never NaN and is
    [==] to the sum of the payrolls. *)
Theorem total_ordered_on_domain n a h s :
  0 <= n <= 2 ^ 53 ->
  is_float h = true ->
  fle (float_lit 0 0) h = true ->
  fle h (float_lit 1 0) = true ->
  is_finite a = true -> fle (float_lit 0 0) a = true ->
  is_finite s = true -> fle (float_lit 0 0) s = true ->
  exists d th tr tm,
    compute_market_cap n a h s = Ok d /\
    float_field d "total_high_payroll" = Some th /\
    float_field d "total_remaining_payroll" = Some tr /\
    float_field d "total_market_cap" = Some tm /\
    is_nan tm = false /\
    feq tm (th + tr)%flt = true /\
    fle (float_lit 0 0) th = true /\
    fle (float_lit 0 0) tr = true /\
    fle (float_lit 0 0) tm = true.
Proof.
  intros Hn Hf H0 H1 Fa Pa Fs Ps.
  pose proof (unit_interval_cases h Hf H0 H1) as Hh.
  pose proof (nonneg_finite_cases a Fa Pa) as Ha.
  pose proof (nonneg_finite_cases s Fs Ps) as Hs.
  assert (Hx : exists x, float_of_int n = Ok x /\
             (x = S754_zero false \/
              exists p e, x = S754_finite false p e /\ le_int (Z.pos p) e n)).
  { destruct (float_of_int_le n ltac:(lia)) as [E|(p & e & E & Hle)];
      eexists; (split; [exact E|]); [left; reflexivity | right; eauto]. }
  destruct Hx as (x & Hx & Hxb).
  destruct (fmul_round_bounds n x h ltac:(lia) Hxb Hh) as (ch & Hr & Hch).
  assert (Hy : exists y, float_of_int ch = Ok y /\
             (y = S754_zero false \/ exists p e, y = S754_finite false p e)).
  { destruct (float_of_int_le ch ltac:(lia)) as [E|(p & e & E & _)];
      eexists; (split; [exact E|]); [left; reflexivity | right; eauto]. }
  assert (Hz : exists z, float_of_int (n - ch) = Ok z /\
             (z = S754_zero false \/ exists p e, z = S754_finite false p e)).
  { destruct (float_of_int_le (n - ch) ltac:(lia)) as [E|(p & e & E & _)];
      eexists; (split; [exact E|]); [left; reflexivity | right; eauto]. }
  destruct Hy as (y & Hy & Sy). destruct Hz as (z & Hz & Sz).
  pose proof (fmul_nonneg y s Sy Hs) as Nth.
  pose proof (fmul_nonneg z a Sz Ha) as Ntr.
  pose proof (fadd_nonneg _ _ Nth Ntr) as Ntm.
  exists (result_dict n a h s ch (n - ch) (y * s)%flt (z * a)%flt
            (y * s + z * a)%flt), (y * s)%flt, (z * a)%flt,
         (y * s + z * a)%flt.
  split; [exact (compute_market_cap_intro n a h s x ch y z Hx Hr Hy Hz)|].
  split; [reflexivity|]. split; [reflexivity|]. split; [reflexivity|].
  destruct (nonneg_float_order _ Ntm) as [Hnan Hle].
  split; [exact Hnan|]. split; [apply feq_refl; exact Hnan|].
  split; [exact (proj2 (nonneg_float_order _ Nth))|].
  split; [exact (proj2 (nonneg_float_order _ Ntr)) | exact Hle].
Qed.

Lemma total_ordered_on_domain_witness :
  exists d th tr tm,
    compute_market_cap 9631 default_avg_salary default_high_percentile
      default_high_salary = Ok d /\
    float_field d "total_high_payroll" = Some th /\
    float_field d "total_remaining_payroll" = Some tr /\
    float_field d "total_market_cap" = Some tm /\
    is_nan tm = false /\
    feq tm (th + tr)%flt = true /\
    fle (float_lit 0 0) th = true /\
    fle (float_lit 0 0) tr = true /\
    fle (float_lit 0 0) tm = true.
Proof.
  apply (total_ordered_on_domain 9631 default_avg_salary
           default_high_percentile default_high_salary).
  - split; [lia | vm_compute; discriminate].
  - vm_compute; reflexivity.
  - vm_compute; reflexivity.
  - vm_compute; reflexivity.
  - vm_compute; reflexivity.
  - vm_compute; reflexivity.
  - vm_compute; reflexivity.
  - vm_compute; reflexivity.
Defined.

(** X9: with a non-empty path, [0 <= n_active <= 2^53] and a percentile in
    [[0, 1]], the estimate is computed with both counts between 0 and
    [n_active], and only the file system can make the run fail: it opens
    the path and dumps that result, or raises [OSError] when the path
    cannot be opened (nothing done) or written (the file left opened). *)
Theorem json_run_on_domain w args path :
  Env.parse_args w = Some args ->
  Namespace.json_out args = Some path ->
  path <> EmptyString ->
  0 <= Namespace.n_active args <= 2 ^ 53 ->
  is_float (Namespace.percent_high args) = true ->
  fle (float_lit 0 0) (Namespace.percent_high args) = true ->
  fle (Namespace.percent_high args) (float_lit 1 0) = true ->
  exists d ch cr,
    compute_market_cap
      (Namespace.n_active args) (Namespace.avg_salary args)
      (Namespace.percent_high args) (Namespace.high_salary args) = Ok d /\
    int_field d "count_high" = Some ch /\
    int_field d "count_remaining" = Some cr /\
    0 <= ch <= Namespace.n_active args /\
    0 <= cr <= Namespace.n_active args /\
    main w =
      (if Env.can_open w path then
         if Env.can_write w path
         then ([ OpenWrite path "utf-8"; WriteJson path false 2 d ], Ok tt)
         else ([ OpenWrite path "utf-8" ], Raise OSError)
       else ([], Raise OSError)).
Proof.
  intros Hw Hj Hp Hn Hf H0 H1. unfold main. rewrite Hw.
  destruct (compute_returns_in_unit_range (Namespace.n_active args)
              (Namespace.avg_salary args) (Namespace.percent_high args)
              (Namespace.high_salary args) Hn Hf H0 H1)
    as (ch & th & tr & -> & Hch).
  rewrite Hj, (str_truth_nonempty _ Hp).
  eexists; exists ch, (Namespace.n_active args - ch).
  split; [reflexivity|]. split; [reflexivity|]. split; [reflexivity|].
  split; [lia|]. split; [lia | reflexivity].
Qed.

Lemma json_run_on_domain_witness :
  exists d ch cr,
    compute_market_cap 9631 default_avg_salary default_high_percentile
      default_high_salary = Ok d /\
    int_field d "count_high" = Some ch /\
    int_field d "count_remaining" = Some cr /\
    0 <= ch <= 9631 /\
    0 <= cr <= 9631 /\
    main (env_of (args_json_out "out.json")) =
      ([ OpenWrite "out.json" "utf-8"; WriteJson "out.json" false 2 d ],
       Ok tt).
Proof.
  apply (json_run_on_domain (env_of (args_json_out "out.json"))
           (args_json_out "out.json") "out.json").
  - reflexivity.
  - reflexivity.
  - discriminate.
  - split; [vm_compute; discriminate | vm_compute; discriminate].
  - vm_compute; reflexivity.
  - vm_compute; reflexivity.
  - vm_compute; reflexivity.
Defined.

(** X10: the text of the report does not show [count_remaining], and shows
    the percentile only through the integer label
    [int(high_percentile * 100)]. *)
Theorem report_ignores n a h h' s ch cr cr' th tr tm :
  int_of_float (h * float_lit 100 0)%flt =
    int_of_float (h' * float_lit 100 0)%flt ->
  report (result_dict n a h s ch cr th tr tm) =
  report (result_dict n a h' s ch cr' th tr tm).
Proof.
  intros H. rewrite !report_result_dict, H. reflexivity.
Qed.

Lemma report_ignores_witness :
  report (result_dict 9631 default_avg_salary (float_lit 5 (-2))
            default_high_salary 482 9149 (float_lit 5302 4)
            (float_lit 439152 3) (float_lit 492172 3)) =
  report (result_dict 9631 default_avg_salary (float_lit 59 (-3))
            default_high_salary 482 0 (float_lit 5302 4)
            (float_lit 439152 3) (float_lit 492172 3)).
Proof.
  apply report_ignores. vm_compute; reflexivity.
Defined.

(** ** Exact operand and negated population *)

(** X11: for [|n_active| < 2^53] the conversion of [n_active] loses nothing,
    so [count_high] is the ties-to-even rounding of the float product whose
    left operand is [n_active] itself. *)
Theorem count_high_of_exact_operand n a h s d :
  Z.abs n < 2 ^ 53 ->
  compute_market_cap n a h s = Ok d ->
  exists x ch,
    float_of_int n = Ok x /\
    exact_int x = Some n /\
    int_field d "count_high" = Some ch /\
    nearest_even (F2Q (x * h)%flt) ch.
Proof.
  intros Hn H. apply compute_market_cap_inv in H.
  destruct H as (x & ch & y & z & Hx & Hr & _ & _ & ->).
  destruct (float_of_int_exact n Hn) as (x' & Hx' & Ex).
  assert (x' = x) by congruence. subst x'.
  exists x, ch. repeat split; try assumption.
  - exact (proj1 (round_is_nearest_even _ _ Hr)).
  - exact (proj2 (round_is_nearest_even _ _ Hr)).
Qed.

Lemma round_spec_opp s m e :
  round_spec (negb s) m e = SFopp (round_spec s m e).
Proof.
  unfold round_spec.
  destruct (shift_round m e (fexp prec emax (Zdigits2 m + e) - e)) as [m1 e1].
  destruct (shift_trunc m1 e1 (fexp prec emax (Zdigits2 m1 + e1) - e1))
    as [m2 e2].
  destruct m2; try reflexivity.
  destruct (e2 <=? emax - prec); reflexivity.
Qed.

Lemma binary_round_opp s q e :
  binary_round prec emax (negb s) q e = SFopp (binary_round prec emax s q e).
Proof.
  unfold binary_round.
  destruct (shl_align q e (fexp prec emax (Z.pos (digits2_pos q) + e))) as [mz ez].
  rewrite !binary_round_aux_spec by lia. apply round_spec_opp.
Qed.

Lemma float_of_int_opp n :
  n <> 0 ->
  float_of_int (- n) =
  match float_of_int n with
  | Ok x => Ok (SFopp x)
  | Raise e => Raise e
  end.
Proof.
  intros Hn. unfold float_of_int.
  destruct n as [|q|q]; [congruence| |]; cbn [Z.opp binary_normalize].
  - change true with (negb false). rewrite binary_round_opp.
    destruct (binary_round prec emax false q 0); reflexivity.
  - change false with (negb true) at 1. rewrite binary_round_opp.
    destruct (binary_round prec emax true q 0); reflexivity.
Qed.

Lemma fmul_opp_l x h : (SFopp x * h)%flt = SFopp (x * h)%flt.
Proof.
  unfold fmul.
  destruct x as [sx|sx| |sx mx ex]; destruct h as [sh|sh| |sh mh eh];
    cbn [SFopp SFmul]; try reflexivity;
    try (destruct sx, sh; reflexivity).
  rewrite !binary_round_aux_spec by lia.
  rewrite <- round_spec_opp. destruct sx, sh; reflexivity.
Qed.

Lemma round_opp p :
  round (SFopp p) =
  match round p with
  | Ok c => Ok (- c)
  | Raise e => Raise e
  end.
Proof.
  destruct p as [b|b| |b m e]; cbn [SFopp round]; try reflexivity.
  destruct b; cbn [negb]; f_equal; lia.
Qed.

(** X12: the counts are odd in [n_active]: when the call returns for
    [n_active] it returns for [- n_active], with both counts negated. *)
Theorem counts_odd_in_n_active n a h s d :
  compute_market_cap n a h s = Ok d ->
  exists d' ch cr,
    compute_market_cap (- n) a h s = Ok d' /\
    int_field d "count_high" = Some ch /\
    int_field d "count_remaining" = Some cr /\
    int_field d' "count_high" = Some (- ch) /\
    int_field d' "count_remaining" = Some (- cr).
Proof.
  intros H. apply compute_market_cap_inv in H.
  destruct H as (x & ch & y & z & Hx & Hr & Hy & Hz & ->).
  assert (Hx' : exists x', float_of_int (- n) = Ok x' /\
                           round (x' * h)%flt = Ok (- ch)).
  { destruct (Z.eq_dec n 0) as [->|Hn0].
    - cbn [Z.opp]. exists x. split; [exact Hx|].
      cbn in Hx. injection Hx as <-.
      destruct h as [sh|sh| |sh mh eh]; cbn in Hr |- *;
        try discriminate; injection Hr as <-; reflexivity.
    - exists (SFopp x). rewrite (float_of_int_opp n Hn0), Hx.
      split; [reflexivity|]. rewrite fmul_opp_l, round_opp, Hr. reflexivity. }
  destruct Hx' as (x' & Hx' & Hr').
  assert (Hy' : exists y', float_of_int (- ch) = Ok y').
  { apply float_of_int_ok_iff. rewrite Z.abs_opp.
    apply float_of_int_ok_iff. eauto. }
  assert (Hz' : exists z', float_of_int (- n - - ch) = Ok z').
  { apply float_of_int_ok_iff.
    replace (- n - - ch) with (- (n - ch)) by lia. rewrite Z.abs_opp.
    apply float_of_int_ok_iff. eauto. }
  destruct Hy' as (y' & Hy'). destruct Hz' as (z' & Hz').
  eexists; exists ch, (n - ch).
  split; [exact (compute_market_cap_intro (- n) a h s x' (- ch) y' z'
                   Hx' Hr' Hy' Hz')|].
  split; [reflexivity|]. split; [reflexivity|]. split; [reflexivity|].
  cbn. f_equal. lia.
Qed.

Lemma counts_odd_in_n_active_witness :
  exists d d' ch cr,
    compute_market_cap 9631 default_avg_salary default_high_percentile
      default_high_salary = Ok d /\
    compute_market_cap (- 9631) default_avg_salary default_high_percentile
      default_high_salary = Ok d' /\
    int_field d "count_high" = Some ch /\
    int_field d "count_remaining" = Some cr /\
    int_field d' "count_high" = Some (- ch) /\
    int_field d' "count_remaining" = Some (- cr).
Proof.
  eexists.
  assert (H : compute_market_cap 9631 default_avg_salary
                default_high_percentile default_high_salary = Ok _)
    by (vm_compute; reflexivity).
  destruct (counts_odd_in_n_active _ _ _ _ _ H) as (d' & ch & cr & H').
  exists d', ch, cr. split; [exact H | exact H'].
Defined.

Lemma count_high_of_exact_operand_witness :
  exists d x ch,
    compute_market_cap 9631 default_avg_salary default_high_percentile
      default_high_salary = Ok d /\
    float_of_int 9631 = Ok x /\
    exact_int x = Some 9631 /\
    int_field d "count_high" = Some ch /\
    nearest_even (F2Q (x * default_high_percentile)%flt) ch.
Proof.
  eexists.
  assert (H : compute_market_cap 9631 default_avg_salary
                default_high_percentile default_high_salary = Ok _)
    by (vm_compute; reflexivity).
  assert (Hn : Z.abs 9631 < 2 ^ 53) by (vm_compute; reflexivity).
  destruct (count_high_of_exact_operand _ _ _ _ _ Hn H) as (x & ch & H').
  exists x, ch. split; [exact H | exact H'].
Defined.
